(** * C11 threads over the libnx kernel primitives

    A shallow embedding of [nx/source/runtime/c11-threads.c]: every function
    of the file is a program of a small free monad whose events are the
    memory accesses the C code performs on shared objects and the calls it
    makes to the kernel wrappers of libnx.  Two semantics interpret these
    programs: a sequential one (one thread, a kernel that answers calls from
    the history), and an interleaving one (a pool of threads over a model of
    the kernel mutexes and condition variables). *)

From Stdlib Require Import ZArith Lia List Bool.
From stdpp Require Import base decidable option numbers list relations.

Local Open Scope Z_scope.

(** ** Constants of the headers *)

(** [<threads.h>] is not part of the translated file: its enumeration
    constants are parameters.  [mtx_plain] and [mtx_recursive] label two
    cases of one [switch], so C requires them to differ. *)
Class ThreadsH := {
  thrd_success : Z;
  thrd_error : Z;
  thrd_nomem : Z;
  mtx_plain : Z;
  mtx_recursive : Z;
  mtx_kinds_differ : mtx_plain <> mtx_recursive
}.

(** The values newlib's [<threads.h>] gives them. *)
Definition newlib_threads_h : ThreadsH.
Proof.
  refine {| thrd_success := 4; thrd_error := 2; thrd_nomem := 3;
            mtx_plain := 1; mtx_recursive := 2 |}.
  discriminate.
Defined.

(** [Result] is a [u32]; [R_SUCCEEDED(res)] is [res == 0] and [R_FAILED(res)]
    is [res != 0] (libnx [result.h]). *)
Definition R_SUCCEEDED (rc : Z) : bool := rc =? 0.
Definition R_FAILED (rc : Z) : bool := negb (rc =? 0).

Definition U64_MAX : Z := 18446744073709551615.
Definition CUR_PROCESS_HANDLE : Z := 0xFFFF8001.

(** Conversion to [u64]: wrap-around modulo 2^64. *)
Definition u64 (z : Z) : Z := z mod 2 ^ 64.

(** ** Objects and pointers *)

(** The members of the structures the file touches: [mtx_t], [once_flag],
    [__thrd_start_info], [__thrd_t], [Thread], [struct timespec] and
    [ThreadVars]. *)
Inductive field :=
| f_type | f_mutex | f_rmutex
| f_status | f_cond
| f_func | f_arg | f_thread_started
| f_thr | f_rc | f_handle
| f_tv_sec | f_tv_nsec
| f_thread_ptr.

(** An address is an allocated object or a member of one. *)
Inductive addr :=
| Obj (n : nat)
| Fld (f : field) (a : addr).

(** A pointer is [NULL] ([None]) or an address. *)
Definition ptr := option addr.

(** A function pointer is [NULL] or names a function. *)
Inductive fn :=
| fn___thrd_entry
| fn_user (n : nat).
Definition funptr := option fn.

#[global] Instance field_eq_dec : EqDecision field.
Proof. solve_decision. Defined.
#[global] Instance addr_eq_dec : EqDecision addr.
Proof. solve_decision. Defined.
#[global] Instance fn_eq_dec : EqDecision fn.
Proof. solve_decision. Defined.

(** ** Events: memory accesses and calls out of the file *)

Inductive csize := sizeof___thrd_t.

Inductive event : Type -> Type :=
(* memory *)
| Load (a : addr) : event Z
| Store (a : addr) (v : Z) : event unit
| LoadPtr (a : addr) : event ptr
| StorePtr (a : addr) (p : ptr) : event unit
| LoadFun (a : addr) : event funptr
| StoreFun (a : addr) (f : funptr) : event unit
(* kernel/mutex.h *)
| mutexInit (m : addr) : event unit
| mutexLock (m : addr) : event unit
| mutexTryLock (m : addr) : event bool
| mutexUnlock (m : addr) : event unit
| rmutexInit (m : addr) : event unit
| rmutexLock (m : addr) : event unit
| rmutexTryLock (m : addr) : event bool
| rmutexUnlock (m : addr) : event unit
(* kernel/condvar.h *)
| condvarInit (c : addr) : event unit
| condvarWakeOne (c : addr) : event Z
| condvarWakeAll (c : addr) : event Z
| condvarWaitTimeout (c m : addr) (timeout : Z) : event Z
(* kernel/svc.h, kernel/thread.h; svcGetInfo answers its result and the
   value it writes through its first argument *)
| svcGetInfo (id0 handle id1 : Z) : event (Z * Z)
| threadCreate (t : addr) (entry : fn) (arg : addr) (stack_sz prio cpuid : Z) : event Z
| svcSetThreadCoreMask (handle core0 core_mask : Z) : event Z
| threadStart (t : addr) : event Z
| threadWaitForExit (t : addr) : event Z
| threadClose (t : addr) : event Z
| svcSleepThread (nano : Z) : event unit
| svcExitThread : event unit
| getThreadVars : event addr
(* stdlib.h *)
| malloc (sz : csize) : event ptr
| free (p : addr) : event unit
(* calls through the function pointers the caller supplies *)
| call_void (f : funptr) : event unit
| call_start (f : funptr) (arg : ptr) : event Z
(* an access through a null pointer *)
| null_deref : event unit.

(** A call together with the type of its answer. *)
Definition call := sigT event.
Definition mkcall {X} (e : event X) : call := existT X e.

(** ** Programs *)

(** [Spin] stands for a [while] loop that has not left after the number of
    iterations the model unrolls. *)
Inductive prog (R : Type) : Type :=
| Ret (r : R)
| Vis {X : Type} (e : event X) (k : X -> prog R)
| Spin.
Arguments Ret {R} r.
Arguments Vis {R X} e k.
Arguments Spin {R}.

Fixpoint bind {A B} (p : prog A) (f : A -> prog B) : prog B :=
  match p with
  | Ret a => f a
  | Vis e k => Vis e (fun x => bind (k x) f)
  | Spin => Spin
  end.

Definition trigger {X} (e : event X) : prog X := Vis e Ret.

Declare Scope prog_scope.
Delimit Scope prog_scope with prog.
Notation "x <- c ;; k" := (bind c (fun x => k))
  (at level 100, c at next level, right associativity) : prog_scope.
Notation "c ;; k" := (bind c (fun _ => k))
  (at level 100, right associativity) : prog_scope.
Notation "! e" := (trigger e) (at level 9, e at level 9) : prog_scope.
Local Open Scope prog_scope.

(** [while (cond) body], unrolled at most [fuel] times. *)
Fixpoint while (fuel : nat) (cond : prog bool) (body : prog unit) : prog unit :=
  match fuel with
  | O => Spin
  | S n => b <- cond ;; if b then body ;; while n cond body else Ret tt
  end.

(** ** The functions of c11-threads.c *)

Section C11Threads.
Context {H : ThreadsH}.

Definition impl_timespec2nsec (ts : addr) : prog Z :=
  tv_sec <- ! (Load (Fld f_tv_sec ts)) ;;
  tv_nsec <- ! (Load (Fld f_tv_nsec ts)) ;;
  Ret (u64 (u64 (u64 tv_sec * 1000000000) + u64 tv_nsec)).

Definition cnd_broadcast (cond : ptr) : prog Z :=
  match cond with
  | None => Ret thrd_error
  | Some c =>
      rc <- ! (condvarWakeAll c) ;;
      Ret (if R_SUCCEEDED rc then thrd_success else thrd_error)
  end.

Definition cnd_destroy (cond : ptr) : prog unit := Ret tt.

Definition cnd_init (cond : ptr) : prog Z :=
  match cond with
  | None => Ret thrd_error
  | Some c => ! (condvarInit c) ;; Ret thrd_success
  end.

Definition cnd_signal (cond : ptr) : prog Z :=
  match cond with
  | None => Ret thrd_error
  | Some c =>
      rc <- ! (condvarWakeOne c) ;;
      Ret (if R_SUCCEEDED rc then thrd_success else thrd_error)
  end.

Definition __cnd_timedwait (cond mtx : ptr) (timeout : Z) : prog Z :=
  match cond, mtx with
  | Some c, Some m =>
      type <- ! (Load (Fld f_type m)) ;;
      if negb (type =? mtx_plain) then Ret thrd_error
      else
        rc <- ! (condvarWaitTimeout c (Fld f_mutex m) timeout) ;;
        Ret (if R_SUCCEEDED rc then thrd_success else thrd_error)
  | _, _ => Ret thrd_error
  end.

Definition cnd_timedwait (cond mtx abs_time : ptr) : prog Z :=
  match abs_time with
  | None => Ret thrd_error
  | Some ts =>
      timeout <- impl_timespec2nsec ts ;;
      __cnd_timedwait cond mtx timeout
  end.

Definition cnd_wait (cond mtx : ptr) : prog Z :=
  __cnd_timedwait cond mtx U64_MAX.

Definition mtx_destroy (mtx : ptr) : prog unit := Ret tt.

Definition mtx_init (mtx : ptr) (type : Z) : prog Z :=
  match mtx with
  | None => Ret thrd_error
  | Some m =>
      if negb (type =? mtx_plain) && negb (type =? mtx_recursive)
      then Ret thrd_error
      else
        ! (Store (Fld f_type m) type) ;;
        (if type =? mtx_plain then ! (mutexInit (Fld f_mutex m))
         else if type =? mtx_recursive then ! (rmutexInit (Fld f_rmutex m))
         else Ret tt) ;;
        Ret thrd_success
  end.

Definition mtx_lock (mtx : ptr) : prog Z :=
  match mtx with
  | None => Ret thrd_error
  | Some m =>
      type <- ! (Load (Fld f_type m)) ;;
      (if type =? mtx_plain then ! (mutexLock (Fld f_mutex m))
       else if type =? mtx_recursive then ! (rmutexLock (Fld f_rmutex m))
       else Ret tt) ;;
      Ret thrd_success
  end.

Definition mtx_trylock (mtx : ptr) : prog Z :=
  match mtx with
  | None => Ret thrd_error
  | Some m =>
      type <- ! (Load (Fld f_type m)) ;;
      res <- (if type =? mtx_plain then ! (mutexTryLock (Fld f_mutex m))
              else if type =? mtx_recursive then ! (rmutexTryLock (Fld f_rmutex m))
              else Ret false) ;;
      Ret (if res : bool then thrd_success else thrd_error)
  end.

Definition mtx_unlock (mtx : ptr) : prog Z :=
  match mtx with
  | None => Ret thrd_error
  | Some m =>
      type <- ! (Load (Fld f_type m)) ;;
      (if type =? mtx_plain then ! (mutexUnlock (Fld f_mutex m))
       else if type =? mtx_recursive then ! (rmutexUnlock (Fld f_rmutex m))
       else Ret tt) ;;
      Ret thrd_success
  end.

(** [flag] and [func] are used without a test: [flag] is an address, and
    the call through a null [func] is an access through [NULL]. *)
Definition call_once (fuel : nat) (flag : addr) (func : funptr) : prog unit :=
  mtx_lock (Some (Fld f_mutex flag)) ;;
  status <- ! (Load (Fld f_status flag)) ;;
  (if status =? 0 then
     ! (Store (Fld f_status flag) 1) ;;
     mtx_unlock (Some (Fld f_mutex flag)) ;;
     match func with
     | Some _ => ! (call_void func)
     | None => ! null_deref
     end ;;
     mtx_lock (Some (Fld f_mutex flag)) ;;
     ! (Store (Fld f_status flag) 2) ;;
     cnd_broadcast (Some (Fld f_cond flag)) ;;
     Ret tt
   else
     while fuel
       (status <- ! (Load (Fld f_status flag)) ;; Ret (status =? 1))
       (cnd_wait (Some (Fld f_cond flag)) (Some (Fld f_mutex flag)) ;; Ret tt)) ;;
  mtx_unlock (Some (Fld f_mutex flag)) ;;
  Ret tt.

Definition thrd_current : prog ptr :=
  vars <- ! getThreadVars ;;
  ! (LoadPtr (Fld f_thread_ptr vars)).

Definition thrd_exit (res : Z) : prog unit :=
  t <- thrd_current ;;
  match t with
  | None => ! null_deref
  | Some t => ! (Store (Fld f_rc t) res) ;; ! svcExitThread
  end.

(** [info->func] is what [thrd_create] stored there, after its test that
    [func] is not null. *)
Definition __thrd_entry (info : addr) : prog unit :=
  func <- ! (LoadFun (Fld f_func info)) ;;
  arg <- ! (LoadPtr (Fld f_arg info)) ;;
  mtx_lock (Some (Fld f_mutex info)) ;;
  ! (Store (Fld f_thread_started info) 1) ;;
  cnd_signal (Some (Fld f_cond info)) ;;
  mtx_unlock (Some (Fld f_mutex info)) ;;
  rc <- ! (call_start func arg) ;;
  thrd_exit rc.

(** [__thrd_start_info info] is a local of [thrd_create]: [info] is the
    address of that object in the creator's frame. *)
Definition thrd_create (fuel : nat) (info : addr) (thr : ptr) (func : funptr)
    (arg : ptr) : prog Z :=
  match thr, func with
  | Some thr, Some _ =>
      ! (StorePtr thr None) ;;
      r <- ! (svcGetInfo 0 CUR_PROCESS_HANDLE 0) ;;
      let '(rc, core_mask) := r in
      if R_FAILED rc then Ret thrd_error
      else
        t <- ! (malloc sizeof___thrd_t) ;;
        match t with
        | None => Ret thrd_nomem
        | Some t =>
            let _error1 := ! (free t) ;; Ret thrd_error in
            let _error2 := ! (threadClose (Fld f_thr t)) ;; _error1 in
            ! (StoreFun (Fld f_func info) func) ;;
            ! (StorePtr (Fld f_arg info) arg) ;;
            ! (Store (Fld f_thread_started info) 0) ;;
            mtx_init (Some (Fld f_mutex info)) mtx_plain ;;
            cnd_init (Some (Fld f_cond info)) ;;
            rc <- ! (threadCreate (Fld f_thr t) fn___thrd_entry info
                       (128 * 1024) 0x3B (-2)) ;;
            if R_FAILED rc then _error1
            else
              handle <- ! (Load (Fld f_handle (Fld f_thr t))) ;;
              rc <- ! (svcSetThreadCoreMask handle (-1) core_mask) ;;
              if R_FAILED rc then _error2
              else
                rc <- ! (threadStart (Fld f_thr t)) ;;
                if R_FAILED rc then _error2
                else
                  mtx_lock (Some (Fld f_mutex info)) ;;
                  while fuel
                    (started <- ! (Load (Fld f_thread_started info)) ;;
                     Ret (started =? 0))
                    (cnd_wait (Some (Fld f_cond info))
                       (Some (Fld f_mutex info)) ;; Ret tt) ;;
                  mtx_unlock (Some (Fld f_mutex info)) ;;
                  ! (StorePtr thr (Some t)) ;;
                  Ret thrd_success
        end
  | _, _ => Ret thrd_error
  end.

Definition thrd_equal (thr1 thr2 : ptr) : prog Z :=
  match thr1, thr2 with
  | Some t1, Some t2 =>
      h1 <- ! (Load (Fld f_handle (Fld f_thr t1))) ;;
      h2 <- ! (Load (Fld f_handle (Fld f_thr t2))) ;;
      Ret (if h1 =? h2 then 1 else 0)
  | _, _ => Ret 0
  end.

(** [thr] is dereferenced without a test: it is an address. *)
Definition thrd_join (thr : addr) (res : ptr) : prog Z :=
  rc <- ! (threadWaitForExit (Fld f_thr thr)) ;;
  if R_FAILED rc then Ret thrd_error
  else
    match res with
    | Some res => v <- ! (Load (Fld f_rc thr)) ;; ! (Store res v)
    | None => Ret tt
    end ;;
    rc <- ! (threadClose (Fld f_thr thr)) ;;
    ! (free thr) ;;
    Ret (if R_SUCCEEDED rc then thrd_success else thrd_error).

Definition thrd_sleep (duration remaining : ptr) : prog Z :=
  match duration with
  | None => Ret (-1)
  | Some d =>
      nano <- impl_timespec2nsec d ;;
      ! (svcSleepThread nano) ;;
      match remaining with
      | Some r =>
          ! (Store (Fld f_tv_nsec r) 0) ;;
          ! (Store (Fld f_tv_sec r) 0)
      | None => Ret tt
      end ;;
      Ret 0
  end.

Definition thrd_yield : prog unit :=
  ! (svcSleepThread (-1)).

End C11Threads.

(** ** Sequential semantics *)

(** The memory one thread sees, and the events it has performed so far,
    oldest first. *)
Record world := World {
  ints : addr -> Z;
  ptrs : addr -> ptr;
  funs : addr -> funptr;
  trace : list call
}.

(** What lies outside the file answers each call from the history. *)
Definition kernel := forall X, list call -> event X -> X.

Definition upd {V} (h : addr -> V) (a : addr) (v : V) : addr -> V :=
  fun b => if decide (a = b) then v else h b.

Definition log {X} (e : event X) (w : world) : world :=
  World (ints w) (ptrs w) (funs w) (trace w ++ [mkcall e]).

(** [svcExitThread] ends the calling thread and an access through [NULL]
    faults: neither returns. *)
Definition returns {X} (e : event X) : bool :=
  match e with
  | svcExitThread | null_deref => false
  | _ => true
  end.

Definition is_memory (c : call) : bool :=
  match projT2 c with
  | Load _ | Store _ _ | LoadPtr _ | StorePtr _ _ | LoadFun _ | StoreFun _ _ => true
  | _ => false
  end.

(** The calls of a trace that leave the file. *)
Definition calls (tr : list call) : list call :=
  filter (fun c => is_memory c = false) tr.

Definition answer (K : kernel) {X} (e : event X) (w : world) : X :=
  match e in event X return X with
  | Load a => ints w a
  | LoadPtr a => ptrs w a
  | LoadFun a => funs w a
  | e => K _ (trace w) e
  end.

Definition effect {X} (e : event X) (w : world) : world :=
  match e with
  | Store a v => log e (World (upd (ints w) a v) (ptrs w) (funs w) (trace w))
  | StorePtr a p => log e (World (ints w) (upd (ptrs w) a p) (funs w) (trace w))
  | StoreFun a f => log e (World (ints w) (ptrs w) (upd (funs w) a f) (trace w))
  | e => log e w
  end.

Inductive outcome (R : Type) :=
| Returned (r : R)
| Stopped
| Spinning.
Arguments Returned {R} r.
Arguments Stopped {R}.
Arguments Spinning {R}.

Fixpoint run (K : kernel) {R} (p : prog R) (w : world) : outcome R * world :=
  match p with
  | Ret r => (Returned r, w)
  | Spin => (Spinning, w)
  | Vis e k =>
      if returns e then run K (k (answer K e w)) (effect e w)
      else (Stopped, effect e w)
  end.

(** A kernel for examples: it answers the calls that return a [Result] with
    [rc], the try-locks with [acquired], [malloc] with [block], and reports
    core mask 1. *)
Definition scripted (rc : call -> Z) (acquired : bool) (block : ptr) : kernel :=
  fun X tr e =>
    match e in event X return X with
    | Load _ => 0
    | Store _ _ => tt
    | LoadPtr _ => None
    | StorePtr _ _ => tt
    | LoadFun _ => None
    | StoreFun _ _ => tt
    | mutexInit _ => tt
    | mutexLock _ => tt
    | mutexTryLock _ => acquired
    | mutexUnlock _ => tt
    | rmutexInit _ => tt
    | rmutexLock _ => tt
    | rmutexTryLock _ => acquired
    | rmutexUnlock _ => tt
    | condvarInit _ => tt
    | condvarWakeOne c => rc (mkcall (condvarWakeOne c))
    | condvarWakeAll c => rc (mkcall (condvarWakeAll c))
    | condvarWaitTimeout c m t => rc (mkcall (condvarWaitTimeout c m t))
    | svcGetInfo a b c => (rc (mkcall (svcGetInfo a b c)), 1)
    | threadCreate t f a s p c => rc (mkcall (threadCreate t f a s p c))
    | svcSetThreadCoreMask h c m => rc (mkcall (svcSetThreadCoreMask h c m))
    | threadStart t => rc (mkcall (threadStart t))
    | threadWaitForExit t => rc (mkcall (threadWaitForExit t))
    | threadClose t => rc (mkcall (threadClose t))
    | svcSleepThread _ => tt
    | svcExitThread => tt
    | getThreadVars => Obj 0
    | malloc _ => block
    | free _ => tt
    | call_void _ => tt
    | call_start _ _ => 0
    | null_deref => tt
    end.

(** A memory whose every integer cell holds [v], with no event yet. *)
Definition blank (v : Z) : world :=
  World (fun _ => v) (fun _ => None) (fun _ => None) [].

(** The events a run from [w] to [w'] has added. *)
Definition performed (w w' : world) : list call :=
  drop (length (trace w)) (trace w').

(** ** Interleaving semantics *)

(** The state threads share: memory, the holder of each kernel mutex, the
    holder and depth of each recursive mutex, the entry and argument given
    to each [Thread] object, and where each thread finds its [ThreadVars]. *)
Record kstate := KState {
  kints : addr -> Z;
  kptrs : addr -> ptr;
  kfuns : addr -> funptr;
  owner : addr -> option nat;
  rowner : addr -> option (nat * nat);
  kthreads : addr -> option (fn * addr);
  tvars : nat -> addr
}.

Definition set_kints (s : kstate) (a : addr) (v : Z) : kstate :=
  KState (upd (kints s) a v) (kptrs s) (kfuns s) (owner s) (rowner s)
    (kthreads s) (tvars s).
Definition set_kptrs (s : kstate) (a : addr) (p : ptr) : kstate :=
  KState (kints s) (upd (kptrs s) a p) (kfuns s) (owner s) (rowner s)
    (kthreads s) (tvars s).
Definition set_kfuns (s : kstate) (a : addr) (f : funptr) : kstate :=
  KState (kints s) (kptrs s) (upd (kfuns s) a f) (owner s) (rowner s)
    (kthreads s) (tvars s).
Definition set_owner (s : kstate) (m : addr) (o : option nat) : kstate :=
  KState (kints s) (kptrs s) (kfuns s) (upd (owner s) m o) (rowner s)
    (kthreads s) (tvars s).
Definition set_rowner (s : kstate) (m : addr) (o : option (nat * nat)) : kstate :=
  KState (kints s) (kptrs s) (kfuns s) (owner s) (upd (rowner s) m o)
    (kthreads s) (tvars s).
Definition set_kthread (s : kstate) (t : addr) (e : fn) (arg : addr) : kstate :=
  KState (kints s) (kptrs s) (kfuns s) (owner s) (rowner s)
    (upd (kthreads s) t (Some (e, arg))) (tvars s).

(** Thread [t] gives up mutex [m] if it holds it. *)
Definition release (t : nat) (m : addr) (s : kstate) : kstate :=
  if decide (owner s m = Some t) then set_owner s m None else s.

(** Modelled from the spec: the kernel primitives of libnx, which the file
    calls and does not define.  [kcall t e s x s'] says that call [e], made
    by thread [t] in state [s], may return [x] and leave state [s'].  A
    mutex has at most one holder and [mutexLock] returns only once the
    caller is that holder; a recursive mutex counts the locks of its holder;
    a call that reports a [Result] may report any, and the calls the model
    knows no more about return and change nothing.  The functions the caller
    supplies ([call_void], [call_start]) are outside the model: a call to one
    returns and leaves the state as it is.  The calls that do not simply
    return are left to the thread steps below. *)
Definition kcall (t : nat) {X} (e : event X) (s : kstate) : X -> kstate -> Prop :=
  match e in event X return X -> kstate -> Prop with
  | Load a => fun x s' => x = kints s a /\ s' = s
  | Store a v => fun _ s' => s' = set_kints s a v
  | LoadPtr a => fun x s' => x = kptrs s a /\ s' = s
  | StorePtr a p => fun _ s' => s' = set_kptrs s a p
  | LoadFun a => fun x s' => x = kfuns s a /\ s' = s
  | StoreFun a f => fun _ s' => s' = set_kfuns s a f
  | mutexInit m => fun _ s' => s' = set_owner s m None
  | mutexLock m => fun _ s' => owner s m = None /\ s' = set_owner s m (Some t)
  | mutexTryLock m => fun x s' =>
      (owner s m = None /\ x = true /\ s' = set_owner s m (Some t)) \/
      (owner s m <> None /\ x = false /\ s' = s)
  | mutexUnlock m => fun _ s' => s' = release t m s
  | rmutexInit m => fun _ s' => s' = set_rowner s m None
  | rmutexLock m => fun _ s' =>
      match rowner s m with
      | None => s' = set_rowner s m (Some (t, 1%nat))
      | Some (u, n) => u = t /\ s' = set_rowner s m (Some (t, S n))
      end
  | rmutexTryLock m => fun x s' =>
      match rowner s m with
      | None => x = true /\ s' = set_rowner s m (Some (t, 1%nat))
      | Some (u, n) =>
          (u = t /\ x = true /\ s' = set_rowner s m (Some (t, S n))) \/
          (u <> t /\ x = false /\ s' = s)
      end
  | rmutexUnlock m => fun _ s' =>
      match rowner s m with
      | Some (u, S (S n)) =>
          if decide (u = t) then s' = set_rowner s m (Some (t, S n)) else s' = s
      | Some (u, _) =>
          if decide (u = t) then s' = set_rowner s m None else s' = s
      | None => s' = s
      end
  | threadCreate th entry arg _ _ _ => fun rc s' =>
      (rc <> 0 /\ s' = s) \/
      (rc = 0 /\ exists h,
         s' = set_kints (set_kthread s th entry arg) (Fld f_handle th) h)
  | getThreadVars => fun x s' => x = tvars s t /\ s' = s
  | condvarWaitTimeout _ _ _ | threadStart _ | svcExitThread | null_deref =>
      fun _ _ => False
  | _ => fun _ s' => s' = s
  end.

(** A thread is running a program, suspended in the kernel wait on condition
    variable [c] with mutex [m] released, or gone. *)
Inductive tstate (R : Type) :=
| Running (p : prog R)
| Waiting (c m : addr) (k : Z -> prog R)
| Exited.
Arguments Running {R} p.
Arguments Waiting {R} c m k.
Arguments Exited {R}.

(** What a thread runs is a call of a function that returns [int] or of one
    that returns nothing. *)
Inductive task :=
| IntCall (s : tstate Z)
| VoidCall (s : tstate unit).

Section Interleaving.
Context {H : ThreadsH}.

(** What a started kernel thread runs: [thrd_create] only ever passes
    [__thrd_entry]; any other entry is a function of the caller's. *)
Definition code_of (entry : fn) (arg : addr) : prog unit :=
  match entry with
  | fn___thrd_entry => __thrd_entry arg
  | fn_user _ => ! (call_start (Some entry) (Some arg)) ;; Ret tt
  end.

(** One step of thread [t]: the next call of its program, made on the
    shared state; [new] holds the thread the step starts, [lab] the call.

    Modelled from the spec: [condvarWaitTimeout] either fails at once with
    the mutex untouched, or releases the mutex and suspends the caller; a
    suspended thread resumes, with any result, by taking the mutex again
    once it is free (a wake, the deadline and a spurious wake-up are not
    told apart).  [threadStart], when it succeeds, starts a thread on the
    entry and argument [threadCreate] recorded.  [svcExitThread] ends the
    caller, and a thread that went through [NULL] makes no further step. *)
Definition tstep (t : nat) {R} (s : kstate) (th : tstate R)
    (s' : kstate) (th' : tstate R) (new : list task) (lab : option call) : Prop :=
  match th with
  | Running (Vis e k) =>
      lab = Some (mkcall e) /\
      match e in event X return (X -> prog R) -> Prop with
      | condvarWaitTimeout c m _ => fun k =>
          new = [] /\
          ((s' = release t m s /\ th' = Waiting c m k) \/
           (exists rc, rc <> 0 /\ s' = s /\ th' = Running (k rc)))
      | threadStart th0 => fun k =>
          s' = s /\
          exists rc, th' = Running (k rc) /\
            ((rc <> 0 /\ new = []) \/
             (rc = 0 /\ exists entry arg,
                kthreads s th0 = Some (entry, arg) /\
                new = [VoidCall (Running (code_of entry arg))]))
      | svcExitThread => fun _ => s' = s /\ th' = Exited /\ new = []
      | null_deref => fun _ => False
      | e => fun k => new = [] /\ exists x, kcall t e s x s' /\ th' = Running (k x)
      end k
  | Waiting c m k =>
      lab = None /\ new = [] /\ owner s m = None /\
      s' = set_owner s m (Some t) /\ exists rc, th' = Running (k rc)
  | _ => False
  end.

Definition task_step (t : nat) (s : kstate) (a : task) (s' : kstate)
    (a' : task) (new : list task) (lab : option call) : Prop :=
  match a with
  | IntCall th => exists th', a' = IntCall th' /\ tstep t s th s' th' new lab
  | VoidCall th => exists th', a' = VoidCall th' /\ tstep t s th s' th' new lab
  end.

(** The system: the shared state, the threads by number, and the calls made
    so far, each with the thread that made it, oldest first. *)
Record sys := Sys {
  ks : kstate;
  pool : list task;
  hist : list (nat * call)
}.

Definition labelled (t : nat) (lab : option call) : list (nat * call) :=
  match lab with Some c => [(t, c)] | None => [] end.

Inductive step : sys -> sys -> Prop :=
| step_thread t a a' s' new lab (y : sys) :
    pool y !! t = Some a ->
    task_step t (ks y) a s' a' new lab ->
    step y (Sys s' (<[t := a']> (pool y) ++ new) (hist y ++ labelled t lab)).

Definition reachable (y0 y : sys) : Prop := rtc step y0 y.

End Interleaving.

(** ** Sequential properties *)

Section Sequential.
Context {H : ThreadsH}.
Variable K : kernel.

Lemma performed_app w w' evs :
  trace w' = trace w ++ evs -> performed w w' = evs.
Proof.
  intros E. unfold performed. rewrite E. apply drop_app_length.
Qed.

Lemma performed_refl w : performed w w = [].
Proof. apply performed_app. symmetry. apply app_nil_r. Qed.

Lemma eqb_plain_recursive : (mtx_recursive =? mtx_plain) = false.
Proof. apply Z.eqb_neq. intros E. apply mtx_kinds_differ. auto. Qed.

Lemma mtx_kinds_differ_sym : mtx_recursive <> mtx_plain.
Proof. intros E. apply mtx_kinds_differ. auto. Qed.

Lemma eqb_other (type : Z) :
  type <> mtx_plain -> type <> mtx_recursive ->
  (type =? mtx_plain) = false /\ (type =? mtx_recursive) = false.
Proof. intros; split; apply Z.eqb_neq; assumption. Qed.

Lemma calls_app tr1 tr2 : calls (tr1 ++ tr2) = calls tr1 ++ calls tr2.
Proof. unfold calls. apply filter_app. Qed.

Lemma app_one_neq {A} (l : list A) (x : A) : l ++ [x] <> l.
Proof.
  intros E. apply (f_equal length) in E. rewrite length_app in E.
  simpl in E. lia.
Qed.

(** *** Condition variables *)

(** What [__cnd_timedwait] does on a condition variable and an initialised
    plain mutex: one call of the kernel wait, whose result alone decides
    between [thrd_success] and [thrd_error]. *)
Lemma __cnd_timedwait_plain w c m timeout :
  ints w (Fld f_type m) = mtx_plain ->
  run K (__cnd_timedwait (Some c) (Some m) timeout) w =
    (Returned
       (if R_SUCCEEDED
             (K _ (trace w ++ [mkcall (Load (Fld f_type m))])
                (condvarWaitTimeout c (Fld f_mutex m) timeout))
        then thrd_success else thrd_error),
     log (condvarWaitTimeout c (Fld f_mutex m) timeout)
       (log (Load (Fld f_type m)) w)).
Proof.
  intros Ety. unfold __cnd_timedwait. simpl. rewrite Ety, Z.eqb_refl.
  reflexivity.
Qed.

Lemma __cnd_timedwait_not_plain w c m timeout :
  ints w (Fld f_type m) <> mtx_plain ->
  run K (__cnd_timedwait (Some c) (Some m) timeout) w =
    (Returned thrd_error, log (Load (Fld f_type m)) w).
Proof.
  intros Ety. unfold __cnd_timedwait. simpl.
  apply Z.eqb_neq in Ety. rewrite Ety. reflexivity.
Qed.

(** The arguments [__cnd_timedwait] rejects before it reaches the kernel. *)
Definition invalid_wait_args (w : world) (cond mtx : ptr) : Prop :=
  cond = None \/ mtx = None \/
  exists m, mtx = Some m /\ ints w (Fld f_type m) <> mtx_plain.

(** The call returned [thrd_error] and made no call out of the file. *)
Definition rejected {R} (w : world) (r : outcome R * world) (v : R) : Prop :=
  fst r = Returned v /\ calls (performed w (snd r)) = [].

Lemma u64_timespec (sec nsec : Z) :
  u64 (u64 (u64 sec * 1000000000) + u64 nsec) = u64 (sec * 1000000000 + nsec).
Proof.
  unfold u64.
  rewrite <- Z.add_mod by lia.
  rewrite (Z.add_mod (sec `mod` 2 ^ 64 * 1000000000)) by lia.
  rewrite Z.mul_mod_idemp_l by lia.
  rewrite <- Z.add_mod by lia. reflexivity.
Qed.

Lemma impl_timespec2nsec_run {R} w ts (k : Z -> prog R) :
  run K (bind (impl_timespec2nsec ts) k) w =
  run K (k (u64 (ints w (Fld f_tv_sec ts) * 1000000000 + ints w (Fld f_tv_nsec ts))))
    (log (Load (Fld f_tv_nsec ts)) (log (Load (Fld f_tv_sec ts)) w)).
Proof.
  simpl. now rewrite u64_timespec.
Qed.

Lemma effect_trace {X} (e : event X) w :
  trace (effect e w) = trace w ++ [mkcall e].
Proof. destruct e; reflexivity. Qed.

(** A run only adds events. *)
Lemma run_trace {R} (p : prog R) w :
  exists evs, trace (snd (run K p w)) = trace w ++ evs.
Proof.
  revert w. induction p as [r | X e k IH |]; intros w; simpl.
  - exists []. now rewrite app_nil_r.
  - destruct (returns e).
    + destruct (IH (answer K e w) (effect e w)) as [evs Hevs].
      exists (mkcall e :: evs). rewrite Hevs, effect_trace.
      now rewrite <- app_assoc.
    + exists [mkcall e]. apply effect_trace.
  - exists []. now rewrite app_nil_r.
Qed.

Lemma __cnd_timedwait_rejects w cond mtx timeout :
  rejected w (run K (__cnd_timedwait cond mtx timeout) w) thrd_error <->
  invalid_wait_args w cond mtx.
Proof.
  split.
  - intros [_ Hcalls]. destruct cond as [c|]; [|now left].
    destruct mtx as [m|]; [|now right; left].
    right; right. exists m. split; [reflexivity|]. intros Ety.
    rewrite __cnd_timedwait_plain in Hcalls by assumption. simpl in Hcalls.
    rewrite (performed_app w _
      [mkcall (Load (Fld f_type m));
       mkcall (condvarWaitTimeout c (Fld f_mutex m) timeout)]) in Hcalls.
    + discriminate Hcalls.
    + simpl. now rewrite <- app_assoc.
  - intros [-> | [-> | (m & -> & Hty)]].
    + split; [reflexivity | simpl; now rewrite performed_refl].
    + destruct cond; (split; [reflexivity | simpl; now rewrite performed_refl]).
    + destruct cond as [c|].
      * rewrite __cnd_timedwait_not_plain by assumption. split; [reflexivity|].
        simpl. now rewrite (performed_app w _ [mkcall (Load (Fld f_type m))]).
      * split; [reflexivity | simpl; now rewrite performed_refl].
Qed.

(** Reading the deadline first changes neither the result nor the calls. *)
Lemma cnd_timedwait_rejects w cond mtx ts :
  rejected w (run K (cnd_timedwait cond mtx (Some ts)) w) thrd_error <->
  invalid_wait_args w cond mtx.
Proof.
  unfold cnd_timedwait. rewrite impl_timespec2nsec_run.
  set (timeout := u64 _).
  set (w2 := log (Load (Fld f_tv_nsec ts)) (log (Load (Fld f_tv_sec ts)) w)).
  rewrite <- (__cnd_timedwait_rejects w2 cond mtx timeout
                : _ <-> invalid_wait_args w cond mtx).
  destruct (run_trace (__cnd_timedwait cond mtx timeout) w2) as [evs Hevs].
  unfold rejected.
  rewrite (performed_app w2 _ evs Hevs).
  rewrite (performed_app w _
    ([mkcall (Load (Fld f_tv_sec ts)); mkcall (Load (Fld f_tv_nsec ts))] ++ evs)).
  - rewrite calls_app. reflexivity.
  - rewrite Hevs. unfold w2. simpl. now rewrite <- !app_assoc.
Qed.

(** C3: the timed wait returns [thrd_error] without calling the kernel wait
    (or anything else outside the file) exactly when the condition variable
    is null, the mutex is null, or the mutex's kind is not plain; a wait with
    a recursive mutex is always rejected this way.  This holds of
    [__cnd_timedwait] and of [cnd_timedwait] given a deadline. *)
Theorem timedwait_rejects_exactly_invalid_args w cond mtx timeout ts :
  (rejected w (run K (__cnd_timedwait cond mtx timeout) w) thrd_error <->
   invalid_wait_args w cond mtx) /\
  (rejected w (run K (cnd_timedwait cond mtx (Some ts)) w) thrd_error <->
   invalid_wait_args w cond mtx) /\
  (forall m, mtx = Some m -> ints w (Fld f_type m) = mtx_recursive ->
     rejected w (run K (__cnd_timedwait cond mtx timeout) w) thrd_error /\
     rejected w (run K (cnd_timedwait cond mtx (Some ts)) w) thrd_error).
Proof.
  split; [apply __cnd_timedwait_rejects|].
  split; [apply cnd_timedwait_rejects|].
  intros m -> Ety.
  assert (Hbad : invalid_wait_args w cond (Some m)).
  { right; right. exists m. split; [reflexivity|].
    rewrite Ety. apply mtx_kinds_differ_sym. }
  split; [now apply __cnd_timedwait_rejects | now apply cnd_timedwait_rejects].
Qed.

(** C4: [cnd_wait] is [__cnd_timedwait] with the timeout [U64_MAX], the
    largest [u64]: the two are the same program, so every run of one is a
    run of the other, with the same result and the same events.  On a
    condition variable and a plain mutex the one call it makes is the kernel
    wait with timeout 18446744073709551615. *)
Theorem cnd_wait_is_timedwait_forever cond mtx :
  cnd_wait cond mtx = __cnd_timedwait cond mtx U64_MAX /\
  U64_MAX = 2 ^ 64 - 1 /\
  (forall w, run K (cnd_wait cond mtx) w =
             run K (__cnd_timedwait cond mtx (2 ^ 64 - 1)) w) /\
  (forall w c m, cond = Some c -> mtx = Some m ->
     ints w (Fld f_type m) = mtx_plain ->
     calls (performed w (snd (run K (cnd_wait cond mtx) w))) =
       [mkcall (condvarWaitTimeout c (Fld f_mutex m) 18446744073709551615)]).
Proof.
  split; [reflexivity|]. split; [reflexivity|]. split; [reflexivity|].
  intros w c m -> -> Ety. unfold cnd_wait.
  rewrite __cnd_timedwait_plain by assumption.
  erewrite performed_app; [|simpl; rewrite <- !app_assoc; reflexivity].
  reflexivity.
Qed.

(** The kernel wait answers [rc] whenever it is called. *)
Definition wait_answers (rc : Z) : Prop :=
  forall tr c m timeout, K Z tr (condvarWaitTimeout c m timeout) = rc.

(** C1 (amended): on valid arguments the timed wait returns [thrd_success]
    when the kernel wait succeeds and [thrd_error] for every other result of
    it, so a wait whose deadline elapses returns [thrd_error], the value of
    every other failure. *)
Theorem timedwait_result_follows_kernel w c m timeout ts rc :
  ints w (Fld f_type m) = mtx_plain ->
  wait_answers rc ->
  fst (run K (__cnd_timedwait (Some c) (Some m) timeout) w) =
    Returned (if rc =? 0 then thrd_success else thrd_error) /\
  fst (run K (cnd_timedwait (Some c) (Some m) (Some ts)) w) =
    Returned (if rc =? 0 then thrd_success else thrd_error) /\
  fst (run K (cnd_timedwait (Some c) (Some m) None) w) = Returned thrd_error.
Proof.
  intros Ety HK. repeat split.
  - rewrite __cnd_timedwait_plain by assumption. simpl. now rewrite HK.
  - unfold cnd_timedwait. rewrite impl_timespec2nsec_run.
    rewrite __cnd_timedwait_plain by assumption. simpl. now rewrite HK.
Qed.

(** *** Mutexes *)

(** The answer of the try-lock primitive that [mtx_trylock] reaches on a
    mutex of either kind. *)
Definition trylock_answer (w : world) (m : addr) : bool :=
  if ints w (Fld f_type m) =? mtx_plain
  then K _ (trace w ++ [mkcall (Load (Fld f_type m))]) (mutexTryLock (Fld f_mutex m))
  else K _ (trace w ++ [mkcall (Load (Fld f_type m))]) (rmutexTryLock (Fld f_rmutex m)).

(** C2 (amended): on an initialised mutex [mtx_trylock] returns
    [thrd_success] exactly when the kernel try-lock reports the acquisition,
    and it returns [thrd_error] when it does not: the value it returns for a
    null mutex. *)
Theorem trylock_result_follows_kernel w m :
  ints w (Fld f_type m) = mtx_plain \/ ints w (Fld f_type m) = mtx_recursive ->
  thrd_success <> thrd_error ->
  (fst (run K (mtx_trylock (Some m)) w) = Returned thrd_success <->
   trylock_answer w m = true) /\
  (trylock_answer w m = false ->
   fst (run K (mtx_trylock (Some m)) w) = Returned thrd_error) /\
  fst (run K (mtx_trylock None) w) = Returned thrd_error.
Proof.
  intros Hty Hne.
  assert (E : fst (run K (mtx_trylock (Some m)) w) =
              Returned (if trylock_answer w m then thrd_success else thrd_error)).
  { unfold mtx_trylock, trylock_answer. simpl.
    destruct Hty as [-> | ->].
    - now rewrite Z.eqb_refl.
    - now rewrite eqb_plain_recursive, Z.eqb_refl. }
  rewrite E. repeat split.
  - destruct (trylock_answer w m); [reflexivity|].
    intros [=]. congruence.
  - now intros ->.
  - now intros ->.
Qed.

(** C7: on a non-null mutex [mtx_init] returns [thrd_error], touching
    nothing, exactly when the kind is neither plain nor recursive; for the
    two kinds it stores the kind in the tag, initialises the kernel mutex of
    that kind (and nothing else) and returns [thrd_success]. *)
Theorem mtx_init_by_kind w m type :
  (type <> mtx_plain /\ type <> mtx_recursive ->
   run K (mtx_init (Some m) type) w = (Returned thrd_error, w)) /\
  (type = mtx_plain ->
   run K (mtx_init (Some m) type) w =
     (Returned thrd_success,
      log (mutexInit (Fld f_mutex m)) (effect (Store (Fld f_type m) mtx_plain) w))) /\
  (type = mtx_recursive ->
   run K (mtx_init (Some m) type) w =
     (Returned thrd_success,
      log (rmutexInit (Fld f_rmutex m))
        (effect (Store (Fld f_type m) mtx_recursive) w))) /\
  (type = mtx_plain \/ type = mtx_recursive ->
   ints (snd (run K (mtx_init (Some m) type) w)) (Fld f_type m) = type) /\
  (thrd_success <> thrd_error ->
   (fst (run K (mtx_init (Some m) type) w) = Returned thrd_error <->
    type <> mtx_plain /\ type <> mtx_recursive)).
Proof.
  assert (Hbad : type <> mtx_plain /\ type <> mtx_recursive ->
    run K (mtx_init (Some m) type) w = (Returned thrd_error, w)).
  { intros [H1 H2]. destruct (eqb_other type H1 H2) as [E1 E2].
    unfold mtx_init. now rewrite E1, E2. }
  assert (Hplain : type = mtx_plain ->
    run K (mtx_init (Some m) type) w =
     (Returned thrd_success,
      log (mutexInit (Fld f_mutex m)) (effect (Store (Fld f_type m) mtx_plain) w))).
  { intros ->. unfold mtx_init. now rewrite Z.eqb_refl. }
  assert (Hrec : type = mtx_recursive ->
    run K (mtx_init (Some m) type) w =
     (Returned thrd_success,
      log (rmutexInit (Fld f_rmutex m))
        (effect (Store (Fld f_type m) mtx_recursive) w))).
  { intros ->. unfold mtx_init.
    now rewrite eqb_plain_recursive, Z.eqb_refl. }
  repeat (split; [assumption|]). split.
  - intros [E | E].
    + rewrite (Hplain E). subst type. simpl. unfold upd.
      now rewrite decide_True.
    + rewrite (Hrec E). subst type. simpl. unfold upd.
      now rewrite decide_True.
  - intros Hne. split.
    + intros Herr. split; intros E.
      * rewrite (Hplain E) in Herr. injection Herr. congruence.
      * rewrite (Hrec E) in Herr. injection Herr. congruence.
    + intros Hk. now rewrite (Hbad Hk).
Qed.

(** C10: on a non-null mutex whose tag is neither plain nor recursive,
    [mtx_lock] and [mtx_unlock] read the tag, call nothing and return
    [thrd_success]; [mtx_trylock] reads the tag, calls nothing and returns
    [thrd_error]. *)
Theorem untagged_mutex_falls_through w m :
  ints w (Fld f_type m) <> mtx_plain ->
  ints w (Fld f_type m) <> mtx_recursive ->
  run K (mtx_lock (Some m)) w =
    (Returned thrd_success, log (Load (Fld f_type m)) w) /\
  run K (mtx_unlock (Some m)) w =
    (Returned thrd_success, log (Load (Fld f_type m)) w) /\
  run K (mtx_trylock (Some m)) w =
    (Returned thrd_error, log (Load (Fld f_type m)) w) /\
  calls (performed w (log (Load (Fld f_type m)) w)) = [].
Proof.
  intros H1 H2. destruct (eqb_other _ H1 H2) as [E1 E2].
  unfold mtx_lock, mtx_unlock, mtx_trylock. simpl. rewrite E1, E2.
  repeat split.
  now rewrite (performed_app w _ [mkcall (Load (Fld f_type m))]).
Qed.

(** *** Threads *)

(** C8 (amended): [thrd_join] returns [thrd_error] at once when the kernel
    wait-for-exit fails.  Otherwise it copies the thread's return code to
    [*res] when [res] is not null, closes the kernel thread, frees the
    handle, and returns [thrd_success] when the close succeeded and
    [thrd_error] when it failed. *)
Theorem thrd_join_result w thr res rc_wait rc_close :
  (forall tr t, K Z tr (threadWaitForExit t) = rc_wait) ->
  (forall tr t, K Z tr (threadClose t) = rc_close) ->
  (rc_wait <> 0 ->
   run K (thrd_join thr res) w =
     (Returned thrd_error, log (threadWaitForExit (Fld f_thr thr)) w)) /\
  (rc_wait = 0 ->
   fst (run K (thrd_join thr res) w) =
     Returned (if rc_close =? 0 then thrd_success else thrd_error) /\
   calls (performed w (snd (run K (thrd_join thr res) w))) =
     [mkcall (threadWaitForExit (Fld f_thr thr));
      mkcall (threadClose (Fld f_thr thr)); mkcall (free thr)] /\
   forall out, res = Some out ->
     ints (snd (run K (thrd_join thr res) w)) out = ints w (Fld f_rc thr)).
Proof.
  intros Hwait Hclose. unfold thrd_join. simpl. rewrite Hwait.
  unfold R_FAILED, R_SUCCEEDED. split.
  - intros Hne. apply Z.eqb_neq in Hne. now rewrite Hne.
  - intros ->. simpl. destruct res as [out|]; simpl; rewrite Hclose.
    + repeat split.
      * erewrite performed_app; [|simpl; rewrite <- !app_assoc; reflexivity].
        reflexivity.
      * intros ? [= <-]. unfold upd. now rewrite decide_True.
    + repeat split.
      * erewrite performed_app; [|simpl; rewrite <- !app_assoc; reflexivity].
        reflexivity.
      * intros ? [=].
Qed.

(** C9: without a duration [thrd_sleep] returns -1 and does nothing.  With
    one it sleeps for [tv_sec * 1000000000 + tv_nsec] nanoseconds (as a
    [u64]), makes no other call, returns 0, and leaves zero in both members
    of [*remaining] when [remaining] is not null. *)
Theorem thrd_sleep_spec w remaining :
  run K (thrd_sleep None remaining) w = (Returned (-1), w) /\
  -1 < 0 /\
  forall d,
    fst (run K (thrd_sleep (Some d) remaining) w) = Returned 0 /\
    calls (performed w (snd (run K (thrd_sleep (Some d) remaining) w))) =
      [mkcall (svcSleepThread
         (u64 (ints w (Fld f_tv_sec d) * 1000000000 + ints w (Fld f_tv_nsec d))))] /\
    (forall r, remaining = Some r ->
       ints (snd (run K (thrd_sleep (Some d) remaining) w)) (Fld f_tv_sec r) = 0 /\
       ints (snd (run K (thrd_sleep (Some d) remaining) w)) (Fld f_tv_nsec r) = 0).
Proof.
  split; [reflexivity|]. split; [lia|]. intros d.
  unfold thrd_sleep. rewrite impl_timespec2nsec_run.
  destruct remaining as [r|]; simpl.
  - split; [reflexivity|]. split.
    + erewrite performed_app; [|simpl; rewrite <- !app_assoc; reflexivity].
      reflexivity.
    + intros r' [= <-]. unfold upd. split.
      * now rewrite decide_True.
      * rewrite decide_False by discriminate. now rewrite decide_True.
  - split; [reflexivity|]. split; [|intros r' [=]].
    erewrite performed_app; [|simpl; rewrite <- !app_assoc; reflexivity].
    reflexivity.
Qed.

End Sequential.

(** *** Concrete runs *)

(** The result the kernel gives a wait whose deadline elapsed, and the one
    it gives for a handle it does not know (libnx [result.h]). *)
Definition KERNELRESULT_TimedOut : Z := 0xEA01.
Definition KERNELRESULT_InvalidHandle : Z := 0xE401.

Definition kernel_timing_out : kernel :=
  scripted (fun _ => KERNELRESULT_TimedOut) false None.
Definition kernel_failing : kernel :=
  scripted (fun _ => KERNELRESULT_InvalidHandle) false None.
Definition kernel_ok : kernel :=
  scripted (fun _ => 0) true (Some (Obj 7)).

(** A kernel on which every call succeeds but [threadClose]. *)
Definition kernel_close_failing : kernel :=
  scripted (fun c => match projT2 c with
                     | threadClose _ => KERNELRESULT_InvalidHandle
                     | _ => 0
                     end) true None.

(** [w] with integer cell [a] holding [v]. *)
Definition with_int (a : addr) (v : Z) (w : world) : world :=
  World (upd (ints w) a v) (ptrs w) (funs w) (trace w).

(** One second and five nanoseconds are 1000000005 nanoseconds, and the
    conversion wraps at 2^64. *)
Example impl_timespec2nsec_small :
  fst (run kernel_ok (impl_timespec2nsec (Obj 2))
         (with_int (Fld f_tv_sec (Obj 2)) 1
            (with_int (Fld f_tv_nsec (Obj 2)) 5 (blank 0)))) =
  Returned 1000000005.
Proof. reflexivity. Qed.

Example impl_timespec2nsec_wraps :
  fst (run kernel_ok (impl_timespec2nsec (Obj 2))
         (with_int (Fld f_tv_sec (Obj 2)) 18446744074 (blank 0))) =
  Returned 290448384.
Proof. reflexivity. Qed.

(** Initialising mutex [Obj 1] as recursive stores the tag and calls
    [rmutexInit] on its recursive member; kind 4 is refused. *)
Example mtx_init_recursive :
  let r := run kernel_ok (@mtx_init newlib_threads_h (Some (Obj 1)) 2) (blank 0) in
  fst r = Returned 4 /\
  ints (snd r) (Fld f_type (Obj 1)) = 2 /\
  trace (snd r) = [mkcall (Store (Fld f_type (Obj 1)) 2);
                   mkcall (rmutexInit (Fld f_rmutex (Obj 1)))].
Proof. repeat split. Qed.

Example mtx_init_timed :
  run kernel_ok (@mtx_init newlib_threads_h (Some (Obj 1)) 4) (blank 0) =
  (Returned 2, blank 0).
Proof. reflexivity. Qed.

(** A wait with a recursive mutex never reaches the kernel. *)
Example cnd_wait_recursive :
  run kernel_ok (@cnd_wait newlib_threads_h (Some (Obj 0)) (Some (Obj 1)))
    (blank 2) =
  (Returned 2, log (Load (Fld f_type (Obj 1))) (blank 2)).
Proof. reflexivity. Qed.

(** Sleeping with a remaining-time output. *)
Example thrd_sleep_remaining :
  let w := with_int (Fld f_tv_sec (Obj 2)) 1 (blank 7) in
  let r := run kernel_ok (thrd_sleep (Some (Obj 2)) (Some (Obj 3))) w in
  fst r = Returned 0 /\
  calls (trace (snd r)) = [mkcall (svcSleepThread 1000000007)] /\
  ints (snd r) (Fld f_tv_sec (Obj 3)) = 0 /\
  ints (snd r) (Fld f_tv_nsec (Obj 3)) = 0.
Proof. repeat split. Qed.

(** With newlib's constants, a wait on condition variable [Obj 0] and plain
    mutex [Obj 1] that times out returns 2, [thrd_error]. *)
Lemma timedwait_result_follows_kernel_witness :
  fst (run kernel_timing_out
         (@__cnd_timedwait newlib_threads_h (Some (Obj 0)) (Some (Obj 1)) 5)
         (blank 1)) = Returned 2.
Proof.
  exact (proj1 (@timedwait_result_follows_kernel newlib_threads_h
    kernel_timing_out (blank 1) (Obj 0) (Obj 1) 5 (Obj 2) KERNELRESULT_TimedOut
    eq_refl (fun _ _ _ _ => eq_refl))).
Defined.

(** C1 as the specification states it, at one wait: the value returned when
    the deadline elapses is neither [thrd_success] nor the value returned
    when the kernel wait fails. *)
Definition timeout_is_distinguished `{ThreadsH} (w : world) (c m : addr)
    (timeout : Z) : Prop :=
  fst (run kernel_timing_out (__cnd_timedwait (Some c) (Some m) timeout) w)
    <> Returned thrd_success /\
  fst (run kernel_timing_out (__cnd_timedwait (Some c) (Some m) timeout) w)
    <> fst (run kernel_failing (__cnd_timedwait (Some c) (Some m) timeout) w).

Lemma timeout_is_not_distinguished :
  ~ @timeout_is_distinguished newlib_threads_h (blank 1) (Obj 0) (Obj 1) 5.
Proof. intros [_ Hne]. apply Hne. reflexivity. Qed.

(** A try-lock of a held plain mutex returns 2, and so does one of [NULL]. *)
Lemma trylock_result_follows_kernel_witness :
  fst (run kernel_timing_out (@mtx_trylock newlib_threads_h (Some (Obj 1)))
         (blank 1)) = Returned 2 /\
  fst (run kernel_timing_out (@mtx_trylock newlib_threads_h None) (blank 1))
    = Returned 2.
Proof.
  pose proof (@trylock_result_follows_kernel newlib_threads_h
    kernel_timing_out (blank 1) (Obj 1) (or_introl eq_refl)
    ltac:(discriminate)) as (_ & Hbusy & Hnull).
  exact (conj (Hbusy eq_refl) Hnull).
Defined.

(** C2 as the specification states it, at one mutex: a failed acquisition
    returns a value other than the one for an invalid argument. *)
Definition busy_is_distinguished `{ThreadsH} (K : kernel) (w : world)
    (m : addr) : Prop :=
  fst (run K (mtx_trylock (Some m)) w) <> fst (run K (mtx_trylock None) w).

Lemma busy_is_not_distinguished :
  ~ @busy_is_distinguished newlib_threads_h kernel_timing_out (blank 1) (Obj 1).
Proof. intros Hne. apply Hne. reflexivity. Qed.

(** Joining when the wait succeeds and the close fails returns 2. *)
Lemma thrd_join_result_witness :
  fst (run kernel_close_failing (@thrd_join newlib_threads_h (Obj 3) None)
         (blank 0)) = Returned 2.
Proof.
  exact (proj1 (proj2 (@thrd_join_result newlib_threads_h kernel_close_failing
    (blank 0) (Obj 3) None 0 KERNELRESULT_InvalidHandle
    (fun _ _ => eq_refl) (fun _ _ => eq_refl)) eq_refl)).
Defined.

(** C8 as the specification states it, at one join: the wait succeeded, so
    the join returns [thrd_success]. *)
Definition join_succeeds_after_wait `{ThreadsH} (K : kernel) (w : world)
    (thr : addr) (res : ptr) : Prop :=
  K Z (trace w) (threadWaitForExit (Fld f_thr thr)) = 0 ->
  fst (run K (thrd_join thr res) w) = Returned thrd_success.

Lemma join_fails_after_wait :
  ~ @join_succeeds_after_wait newlib_threads_h kernel_close_failing (blank 0)
      (Obj 3) None.
Proof. intros Hok. specialize (Hok eq_refl). discriminate Hok. Qed.

(** A mutex whose tag is 0: locking and unlocking succeed, try-lock fails. *)
Lemma untagged_mutex_falls_through_witness :
  run kernel_ok (@mtx_lock newlib_threads_h (Some (Obj 1))) (blank 0) =
    (Returned 4, log (Load (Fld f_type (Obj 1))) (blank 0)) /\
  run kernel_ok (@mtx_trylock newlib_threads_h (Some (Obj 1))) (blank 0) =
    (Returned 2, log (Load (Fld f_type (Obj 1))) (blank 0)).
Proof.
  pose proof (@untagged_mutex_falls_through newlib_threads_h kernel_ok
    (blank 0) (Obj 1) ltac:(discriminate) ltac:(discriminate))
    as (Hlock & _ & Htry & _).
  exact (conj Hlock Htry).
Defined.

(** ** Protocols: what a program may call, seen from one thread *)

(** A protocol tracks a view [V] of one thread: which calls the thread may
    make in a view, which answers it may be given, and the view after the
    call has returned. *)
Record protocol (V : Type) := Protocol {
  allowed : V -> forall X, event X -> Prop;
  answers : V -> forall X, event X -> X -> Prop;
  next : V -> forall X, event X -> X -> V
}.
Arguments allowed {V} _ _ {X} _.
Arguments answers {V} _ _ {X} _ _.
Arguments next {V} _ _ {X} _ _.

(** [follows P final v p]: from view [v], program [p] makes only calls the
    protocol allows, whatever the answers, and returns only in a view and
    with a value that [final] accepts. *)
Fixpoint follows {V R} (P : protocol V) (final : V -> R -> Prop) (v : V)
    (p : prog R) : Prop :=
  match p with
  | Ret r => final v r
  | Spin => True
  | Vis e k =>
      allowed P v e /\
      forall x, answers P v e x -> follows P final (next P v e x) (k x)
  end.

Lemma follows_bind {V A B} (P : protocol V) (mid : V -> A -> Prop)
    (final : V -> B -> Prop) v (p : prog A) (f : A -> prog B) :
  follows P mid v p ->
  (forall v' a, mid v' a -> follows P final v' (f a)) ->
  follows P final v (bind p f).
Proof.
  revert v. induction p as [a | X e k IH |]; simpl; intros v Hp Hf.
  - auto.
  - destruct Hp as [Hal Hk]. split; [assumption|]. intros x Hx.
    apply IH; auto.
  - exact I.
Qed.

Lemma follows_while {V} (P : protocol V) (inv : V -> Prop)
    (cond : prog bool) (body : prog unit) (done : V -> unit -> Prop) :
  (forall v, inv v ->
     follows P (fun v' (b : bool) =>
                  if b then follows P (fun v'' _ => inv v'') v' body
                  else done v' tt) v cond) ->
  forall fuel v, inv v -> follows P done v (while fuel cond body).
Proof.
  intros Hcond. induction fuel as [|n IH]; intros v Hv; simpl; [exact I|].
  eapply follows_bind; [apply Hcond; assumption|].
  intros v' [|] Hb; simpl.
  - eapply follows_bind; [exact Hb|]. intros v'' u Hv''. apply IH, Hv''.
  - exact Hb.
Qed.

(** ** The once-guard among racing threads *)

Section OnceGuard.
Context {H : ThreadsH}.
Variable flag : addr.

(** The cells and kernel objects of [*flag]. *)
Definition flag_status : addr := Fld f_status flag.
Definition flag_type : addr := Fld f_type (Fld f_mutex flag).
Definition flag_mutex : addr := Fld f_mutex (Fld f_mutex flag).














Lemma owner_set_owner s m o : owner (set_owner s m o) m = o.
Proof. simpl. unfold upd. now rewrite decide_True. Qed.
Lemma kints_set_owner s m o a : kints (set_owner s m o) a = kints s a.
Proof. reflexivity. Qed.
Lemma kints_set_kints s a v : kints (set_kints s a v) a = v.
Proof. simpl. unfold upd. now rewrite decide_True. Qed.
Lemma owner_set_kints s a v m : owner (set_kints s a v) m = owner s m.
Proof. reflexivity. Qed.
Lemma release_held t m s :
  owner s m = Some t -> release t m s = set_owner s m None.
Proof. intros E. unfold release. now rewrite decide_True. Qed.





(** The racing calls: each with the bound on its loop and the function it
    passes. *)
Definition once_racers (racers : list (nat * funptr)) : list task :=
  (fun c => VoidCall (Running (call_once (fst c) flag (snd c)))) <$> racers.

(** At the start every thread is about to enter [call_once] on [flag], whose
    mutex is an initialised plain mutex that nobody holds. *)
Definition once_init (y0 : sys) (racers : list (nat * funptr)) : Prop :=
  pool y0 = once_racers racers /\
  owner (ks y0) flag_mutex = None /\
  kints (ks y0) flag_type = mtx_plain.





(** *** The order of a thread's calls *)






















End OnceGuard.

(** *** A concrete race *)

(** A state in which the mutex tag of the flag [Obj 0] is newlib's
    [mtx_plain], every other integer cell is 0 and no mutex is held. *)
Definition fresh_kstate : kstate :=
  KState (fun a => if decide (a = flag_type (Obj 0)) then 1 else 0)
    (fun _ => None) (fun _ => None) (fun _ => None) (fun _ => None)
    (fun _ => None) (fun t => Obj (100 + t)).

(** Two threads about to race through [call_once] on [Obj 0]. *)
Definition two_racers : sys :=
  Sys fresh_kstate
    (@once_racers newlib_threads_h (Obj 0)
       [(1%nat, Some (fn_user 0)); (2%nat, Some (fn_user 1))])
    [].

(** Thread [t] makes its next call. *)
Ltac thread_steps t :=
  eapply rtc_l;
  [ eapply (@step_thread newlib_threads_h t);
    [ reflexivity
    | eexists; split; [reflexivity|];
      repeat (simpl;
              lazymatch goal with
              | |- @ex unit _ => exists tt
              | |- @ex Z (fun _ => _ = _ /\ _ = _) => exists 0
              | |- @ex Z (fun _ => _ = _) => exists 0
              | |- @ex Z (fun _ => (_ \/ _) /\ _) => exists 0
              | |- @ex Z (fun _ => _ = _ /\ (_ \/ _)) => exists 0
              | |- @ex (Z * Z) _ => exists (0, 1)
              | |- @ex ptr (fun _ => _ = _ /\ _ = _) => exists (Some (Obj 7))
              | |- ex _ => eexists
              | |- _ /\ _ => split
              | |- _ \/ _ => right
              | |- _ = _ => reflexivity
              end) ]
  | simpl ].

(** Thread [t] enters the kernel wait and is suspended. *)
Ltac thread_waits t :=
  eapply rtc_l;
  [ eapply (@step_thread newlib_threads_h t);
    [ reflexivity
    | eexists; split; [reflexivity|];
      split; [reflexivity|]; split; [reflexivity|];
      left; split; reflexivity ]
  | simpl ].

Lemma two_racers_init :
  @once_init newlib_threads_h (Obj 0) two_racers
    [(1%nat, Some (fn_user 0)); (2%nat, Some (fn_user 1))].
Proof. repeat split. Defined.


(** A whole race: thread 0 becomes the runner; thread 1 finds status 1
    and waits; thread 0 calls its function, stores 2, broadcasts and
    returns; thread 1 resumes, finds status 2 and returns. *)
Example two_racers_finish :
  exists y,
    @reachable newlib_threads_h two_racers y /\
    pool y = [VoidCall (Running (Ret tt)); VoidCall (Running (Ret tt))] /\
    kints (ks y) (flag_status (Obj 0)) = 2 /\
    owner (ks y) (flag_mutex (Obj 0)) = None.
Proof.
  eexists. split; [|split; [|split]].
  - unfold reachable, two_racers.
    do 6 thread_steps 0%nat.
    do 5 thread_steps 1%nat. thread_waits 1%nat.
    do 7 thread_steps 0%nat.
    do 4 thread_steps 1%nat.
    apply rtc_refl.
  - reflexivity.
  - reflexivity.
  - reflexivity.
Qed.

(** ** The start handshake of thrd_create *)

Section Handshake.
Context {H : ThreadsH}.
Variable info : addr.

(** The cells and kernel objects of the creator's [__thrd_start_info]. *)
Definition info_started : addr := Fld f_thread_started info.
Definition info_type : addr := Fld f_type (Fld f_mutex info).
Definition info_mutex : addr := Fld f_mutex (Fld f_mutex info).
Definition info_cond : addr := Fld f_cond info.

(** How far [thrd_create] has come: nothing done, the flag cleared, the
    mutex tagged, the mutex initialised, the kernel thread created on
    [Thread] object [th], the kernel thread started. *)
Inductive create_phase :=
| CRaw
| CCleared
| CTagged
| CInit
| CCreated (th : addr)
| CStarted.

(** The creator's view: its phase, whether it holds the handshake mutex,
    and whether its last read of the flag, made with the mutex held, found
    it set. *)
Record create_view := CreateView {
  c_phase : create_phase;
  c_held : bool;
  c_seen : bool
}.

Definition create_allowed (v : create_view) {X} (e : event X) : Prop :=
  match e with
  | StorePtr _ _ | StoreFun _ _ | svcGetInfo _ _ _ | malloc _ | free _
  | condvarInit _ | svcSetThreadCoreMask _ _ _ | threadClose _ => True
  | Load a =>
      (exists th, a = Fld f_handle th) \/
      (c_phase v = CStarted /\
       (a = info_type \/ (a = info_started /\ c_held v = true)))
  | Store a x =>
      (c_phase v = CRaw /\ a = info_started /\ x = 0) \/
      (c_phase v = CCleared /\ a = info_type /\ x = mtx_plain)
  | mutexInit m => c_phase v = CTagged /\ m = info_mutex
  | threadCreate _ entry arg _ _ _ =>
      c_phase v = CInit /\ entry = fn___thrd_entry /\ arg = info
  | threadStart th => c_phase v = CCreated th
  | mutexLock m => c_phase v = CStarted /\ m = info_mutex /\ c_held v = false
  | mutexUnlock m => c_phase v = CStarted /\ m = info_mutex /\ c_held v = true
  | condvarWaitTimeout c m _ =>
      c_phase v = CStarted /\ c = info_cond /\ m = info_mutex /\ c_held v = true
  | _ => False
  end.

(** Whoever reads the tag of the handshake mutex finds [mtx_plain]. *)
Definition tag_answers {V} (v : V) {X} (e : event X) : X -> Prop :=
  match e in event X return X -> Prop with
  | Load a => fun x => a = info_type -> x = mtx_plain
  | _ => fun _ => True
  end.

Definition create_next (v : create_view) {X} (e : event X) : X -> create_view :=
  match e in event X return X -> create_view with
  | Load a => fun x =>
      if decide (a = info_started)
      then CreateView (c_phase v) (c_held v) (negb (x =? 0))
      else v
  | Store a _ => fun _ =>
      if decide (a = info_started)
      then CreateView CCleared (c_held v) (c_seen v)
      else CreateView CTagged (c_held v) (c_seen v)
  | mutexInit _ => fun _ => CreateView CInit (c_held v) (c_seen v)
  | threadCreate th _ _ _ _ _ => fun rc =>
      if rc =? 0 then CreateView (CCreated th) (c_held v) (c_seen v) else v
  | threadStart _ => fun rc =>
      if rc =? 0 then CreateView CStarted (c_held v) false else v
  | mutexLock _ => fun _ => CreateView (c_phase v) true false
  | mutexUnlock _ => fun _ => CreateView (c_phase v) false (c_seen v)
  | condvarWaitTimeout _ _ _ => fun _ => CreateView (c_phase v) true false
  | _ => fun _ => v
  end.

Definition create_protocol : protocol create_view :=
  Protocol create_view (@create_allowed) (@tag_answers create_view)
    (@create_next).

(** [thrd_create] returns [thrd_success] only after it started the thread
    and then read the flag set. *)
Definition create_final (v : create_view) (r : Z) : Prop :=
  r = thrd_success -> c_phase v = CStarted /\ c_seen v = true.

(** How far the trampoline has come: not yet in the mutex, in the mutex,
    flag set, creator signalled, mutex released. *)
Inductive entry_phase :=
| EntryStart
| EntryLocked
| EntrySet
| EntrySignaled
| EntryDone.

Definition entry_allowed (v : entry_phase) {X} (e : event X) : Prop :=
  match e with
  | LoadFun _ | LoadPtr _ => True
  | Load a => a = info_type
  | mutexLock m => v = EntryStart /\ m = info_mutex
  | Store a x =>
      (v = EntryLocked /\ a = info_started /\ x = 1) \/
      (v = EntryDone /\ exists t, a = Fld f_rc t)
  | condvarWakeOne c => v = EntrySet /\ c = info_cond
  | mutexUnlock m => v = EntrySignaled /\ m = info_mutex
  | call_start _ _ | getThreadVars | svcExitThread | null_deref => v = EntryDone
  | _ => False
  end.

Definition entry_next (v : entry_phase) {X} (e : event X) : X -> entry_phase :=
  match e in event X return X -> entry_phase with
  | mutexLock _ => fun _ => EntryLocked
  | Store a _ => fun _ => if decide (a = info_started) then EntrySet else v
  | condvarWakeOne _ => fun _ => EntrySignaled
  | mutexUnlock _ => fun _ => EntryDone
  | _ => fun _ => v
  end.

Definition entry_protocol : protocol entry_phase :=
  Protocol entry_phase (@entry_allowed) (@tag_answers entry_phase)
    (@entry_next).

Ltac hs_side :=
  unfold info_type, info_started, info_mutex, info_cond;
  simpl; intuition (eauto; try discriminate; try congruence).

(** One call of a program under [follows], and the branch on a [Result]. *)
Ltac hs_call :=
  simpl;
  lazymatch goal with
  | |- _ /\ (forall x, _) =>
      split;
      [ hs_side
      | let x := fresh "x" in
        let Hx := fresh "Hx" in
        intros x Hx; simpl in Hx;
        try (rewrite (Hx eq_refl));
        rewrite ?Z.eqb_refl;
        try rewrite decide_True by reflexivity;
        try rewrite decide_False by discriminate;
        clear Hx; simpl ]
  end.
Ltac hs_branch :=
  unfold R_FAILED;
  lazymatch goal with
  | |- context [negb (?rc =? 0)] => destruct (rc =? 0) eqn:?; simpl
  end.

Ltac hs_fail :=
  repeat hs_call; let E := fresh in intros E; congruence.

Section Follows.
Hypothesis error_is_not_success : thrd_error <> thrd_success.
Hypothesis nomem_is_not_success : thrd_nomem <> thrd_success.

Lemma create_tail_follows v t thr :
  c_phase v = CStarted -> c_held v = true -> c_seen v = true ->
  follows create_protocol create_final v
    (mtx_unlock (Some (Fld f_mutex info)) ;;
     ! (StorePtr thr (Some t)) ;; Ret thrd_success).
Proof.
  destruct v as [ph h z]. simpl. intros -> -> ->.
  do 3 hs_call. now split.
Qed.

Lemma thrd_create_follows fuel thr func arg :
  follows create_protocol create_final (CreateView CRaw false false)
    (thrd_create fuel info thr func arg).
Proof.
  unfold thrd_create.
  destruct thr as [thr|]; [|intros E; congruence].
  destruct func as [f|]; [|intros E; congruence].
  do 2 hs_call.
  lazymatch goal with x : (Z * Z)%type |- _ => destruct x as [rc core_mask] end.
  hs_branch; [|intros E; congruence].
  hs_call.
  lazymatch goal with x : ptr |- _ => destruct x as [t|] end;
    [|intros E; congruence].
  do 7 hs_call. hs_branch; [|hs_fail].
  do 2 hs_call. hs_branch; [|hs_fail].
  hs_call. hs_branch; [|hs_fail].
  do 2 hs_call.
  eapply (follows_bind _
    (fun v _ => c_phase v = CStarted /\ c_held v = true /\ c_seen v = true)).
  - apply (follows_while _
      (fun v => c_phase v = CStarted /\ c_held v = true)); [|now split].
    intros [ph h z] [Hph Hh]. simpl in Hph, Hh. subst ph h.
    hs_call.
    lazymatch goal with
    | |- context [?z =? 0] => destruct (z =? 0); simpl
    end; [|now repeat split].
    do 2 hs_call. now split.
  - intros v [] (Hph & Hh & Hz). now apply create_tail_follows.
Qed.

Lemma __thrd_entry_follows :
  follows entry_protocol (fun _ _ => True) EntryStart (__thrd_entry info).
Proof.
  unfold __thrd_entry, thrd_exit, thrd_current.
  do 11 hs_call.
  lazymatch goal with x : ptr |- _ => destruct x as [t|] end;
    repeat hs_call; exact I.
Qed.

End Follows.

Definition entry_holds (p : entry_phase) : bool :=
  match p with
  | EntryLocked | EntrySet | EntrySignaled => true
  | _ => false
  end.

Definition entry_has_set (p : entry_phase) : bool :=
  match p with
  | EntrySet | EntrySignaled | EntryDone => true
  | _ => false
  end.

(** What the creator's view [cv] and the trampoline's phase [ep] (none
    before the thread is started) say about the shared state.  The
    creator is thread 0 and the thread it starts is thread 1. *)
Definition create_rel (s : kstate) (cv : create_view)
    (ep : option entry_phase) : Prop :=
  match c_phase cv with
  | CStarted =>
      kints s info_type = mtx_plain /\
      exists p, ep = Some p /\
        (c_held cv = true <-> owner s info_mutex = Some 0%nat) /\
        (entry_holds p = true <-> owner s info_mutex = Some 1%nat) /\
        (entry_has_set p = false -> kints s info_started = 0) /\
        (c_seen cv = true -> p = EntryDone)
  | ph =>
      ep = None /\ c_held cv = false /\
      match ph with
      | CRaw | CStarted => True
      | CCleared => kints s info_started = 0
      | CTagged => kints s info_started = 0 /\ kints s info_type = mtx_plain
      | CInit =>
          kints s info_started = 0 /\ kints s info_type = mtx_plain /\
          owner s info_mutex = None
      | CCreated th =>
          kints s info_started = 0 /\ kints s info_type = mtx_plain /\
          owner s info_mutex = None /\
          kthreads s th = Some (fn___thrd_entry, info)
      end
  end.

Definition creator_thread (cv : create_view) (th : tstate Z) : Prop :=
  match th with
  | Running p => follows create_protocol create_final cv p
  | Waiting _ m k =>
      m = info_mutex /\ c_phase cv = CStarted /\ c_held cv = false /\
      forall rc, follows create_protocol create_final
                   (CreateView CStarted true false) (k rc)
  | Exited => False
  end.

Definition entry_thread (p : entry_phase) (th : tstate unit) : Prop :=
  match th with
  | Running c => follows entry_protocol (fun _ _ => True) p c
  | Waiting _ _ _ => False
  | Exited => p = EntryDone
  end.

Lemma create_rel_ext s s' cv ep :
  kints s' info_type = kints s info_type ->
  kints s' info_started = kints s info_started ->
  owner s' info_mutex = owner s info_mutex ->
  kthreads s' = kthreads s ->
  create_rel s cv ep -> create_rel s' cv ep.
Proof.
  unfold create_rel. intros -> -> -> ->. auto.
Qed.

Lemma kints_set_kints_ne s a v b :
  a <> b -> kints (set_kints s a v) b = kints s b.
Proof. intros Hne. simpl. unfold upd. now rewrite decide_False. Qed.

(** A call that leaves the state, or changes cells the relation does not
    read, and moves no view. *)
Ltac hs_neutral Hstep Hk Hrel :=
  let x := fresh "x" in
  destruct Hstep as (-> & x & -> & ->);
  eexists; split; [apply Hk; exact I|];
  left; split; [reflexivity|];
  eapply create_rel_ext; [ | | | | exact Hrel]; reflexivity.

Ltac hs_rel :=
  unfold create_rel in *; cbn [c_phase c_held c_seen] in *;
  rewrite ?owner_set_owner, ?kints_set_owner, ?kints_set_kints,
    ?owner_set_kints in *.

Lemma create_step_local s th s' th' new lab cv ep :
  creator_thread cv th ->
  create_rel s cv ep ->
  tstep 0 s th s' th' new lab ->
  exists cv',
    creator_thread cv' th' /\
    ((new = [] /\ create_rel s' cv' ep) \/
     (ep = None /\ new = [VoidCall (Running (__thrd_entry info))] /\
      create_rel s' cv' (Some EntryStart))).
Proof.
  intros Hth Hrel Hstep.
  destruct cv as [ph h z].
  destruct th as [p | c m k |]; simpl in Hstep; [|  | contradiction].
  - destruct p as [ret | X e k |]; try contradiction.
    destruct Hstep as [_ Hstep]. simpl in Hth. destruct Hth as [Hal Hk].
    destruct e; simpl in Hal; try contradiction; simpl in Hstep.
    + (* Load *)
      destruct Hstep as (-> & x & (-> & ->) & ->).
      exists (create_next (CreateView ph h z) (Load a) (kints s a)).
      split.
      { apply Hk. simpl. intros ->.
        destruct Hal as [[th Hth] | [-> _]]; [discriminate Hth|].
        apply Hrel. }
      left. split; [reflexivity|]. simpl.
      destruct (decide (a = info_started)) as [->|]; [|exact Hrel].
      destruct Hal as [[th Hth] | [-> [Hty | [_ ->]]]];
        [discriminate Hth | discriminate Hty |].
      destruct Hrel as (Hty & p & -> & Hh & Hp & Hset & Hseen).
      split; [exact Hty|]. exists p. split; [reflexivity|].
      simpl in *. repeat split; try tauto.
      intros Hx. apply negb_true_iff, Z.eqb_neq in Hx.
      destruct p; simpl in *; try reflexivity; try tauto;
        destruct Hp as [Hp _]; specialize (Hp eq_refl);
        destruct Hh as [Hh _]; specialize (Hh eq_refl); congruence.
    + (* Store *)
      destruct Hstep as (-> & [] & -> & ->).
      exists (create_next (CreateView ph h z) (Store a v) tt).
      split; [apply Hk; exact I|]. left. split; [reflexivity|].
      destruct Hal as [(-> & -> & ->) | (-> & -> & ->)]; unfold create_next.
      * case_decide; [|congruence]. hs_rel. tauto.
      * case_decide; [discriminate|]. hs_rel.
        rewrite kints_set_kints_ne by discriminate. tauto.
    + hs_neutral Hstep Hk Hrel.
    + hs_neutral Hstep Hk Hrel.
    + (* mutexInit *)
      destruct Hal as (-> & ->).
      destruct Hstep as (-> & [] & -> & ->).
      exists (CreateView CInit h z).
      split; [apply Hk; exact I|]. left. split; [reflexivity|].
      hs_rel. tauto.
    + (* mutexLock *)
      destruct Hal as (-> & -> & ->).
      destruct Hstep as (-> & [] & (Hfree & ->) & ->).
      exists (CreateView CStarted true false).
      split; [apply Hk; exact I|]. left. split; [reflexivity|].
      hs_rel. destruct Hrel as (Hty & p & -> & Hh & Hp & Hset & Hseen).
      split; [exact Hty|]. exists p. split; [reflexivity|].
      rewrite Hfree in Hp. intuition (try congruence; try discriminate).
    + (* mutexUnlock *)
      destruct Hal as (-> & -> & ->).
      destruct Hstep as (-> & [] & -> & ->).
      exists (CreateView CStarted false z).
      split; [apply Hk; exact I|]. left. split; [reflexivity|].
      hs_rel. destruct Hrel as (Hty & p & -> & Hh & Hp & Hset & Hseen).
      assert (Hown : owner s info_mutex = Some 0%nat) by now apply Hh.
      rewrite (release_held _ _ _ Hown). hs_rel.
      split; [exact Hty|]. exists p. split; [reflexivity|].
      rewrite Hown in Hp. intuition (try congruence; try discriminate).
    + hs_neutral Hstep Hk Hrel.
    + (* condvarWaitTimeout *)
      destruct Hal as (-> & -> & -> & ->).
      hs_rel. destruct Hrel as (Hty & p & -> & Hh & Hp & Hset & Hseen).
      assert (Hown : owner s info_mutex = Some 0%nat) by now apply Hh.
      destruct Hstep as (-> & [(-> & ->) | (rc & _ & -> & ->)]).
      * exists (CreateView CStarted false false).
        split; [simpl; repeat split; intros rc; apply Hk; exact I|].
        left. split; [reflexivity|].
        rewrite (release_held _ _ _ Hown). hs_rel.
        split; [exact Hty|]. exists p. split; [reflexivity|].
        rewrite Hown in Hp. intuition (try congruence; try discriminate).
      * exists (CreateView CStarted true false).
        split; [apply Hk; exact I|]. left. split; [reflexivity|].
        hs_rel. split; [exact Hty|]. exists p. split; [reflexivity|].
        intuition (try congruence; try discriminate).
    + hs_neutral Hstep Hk Hrel.
    + (* threadCreate *)
      destruct Hal as (-> & -> & ->).
      destruct Hstep as (-> & rc & Hs & ->).
      exists (create_next (CreateView CInit h z)
                (threadCreate t fn___thrd_entry info stack_sz prio cpuid) rc).
      split; [apply Hk; exact I|]. left. split; [reflexivity|].
      unfold create_next.
      destruct Hs as [(Hrc & ->) | (-> & h0 & ->)].
      * apply Z.eqb_neq in Hrc. rewrite Hrc. exact Hrel.
      * rewrite Z.eqb_refl. hs_rel.
        rewrite !kints_set_kints_ne by discriminate.
        destruct Hrel as (-> & -> & Hst & Hty & Hown).
        repeat split; try assumption.
        simpl. unfold upd. now rewrite decide_True.
    + hs_neutral Hstep Hk Hrel.
    + (* threadStart *)
      subst ph. destruct Hstep as (-> & rc & -> & Hs).
      exists (create_next (CreateView (CCreated t) h z) (threadStart t) rc).
      split; [apply Hk; exact I|]. unfold create_next.
      destruct Hs as [(Hrc & ->) | (-> & entry & arg & Hkt & ->)].
      * left. split; [reflexivity|].
        apply Z.eqb_neq in Hrc. rewrite Hrc. exact Hrel.
      * right. rewrite Z.eqb_refl. hs_rel.
        destruct Hrel as (-> & -> & Hst & Hty & Hown & Hkt').
        rewrite Hkt' in Hkt. injection Hkt as <- <-.
        split; [reflexivity|]. split; [reflexivity|].
        split; [exact Hty|]. exists EntryStart. split; [reflexivity|].
        rewrite Hown. simpl.
        intuition (try congruence; try discriminate).
    + hs_neutral Hstep Hk Hrel.
    + hs_neutral Hstep Hk Hrel.
    + hs_neutral Hstep Hk Hrel.
  - (* the creator resumes from the wait *)
    destruct Hth as (-> & Hph & Hh & Hk). simpl in Hph, Hh. subst ph h.
    destruct Hstep as (_ & -> & Hfree & -> & rc & ->).
    exists (CreateView CStarted true false).
    split; [apply Hk|]. left. split; [reflexivity|].
    hs_rel. destruct Hrel as (Hty & p & -> & Hh & Hp & Hset & Hseen).
    split; [exact Hty|]. exists p. split; [reflexivity|].
    rewrite Hfree in Hp. intuition (try congruence; try discriminate).
Qed.

(** The three calls of the trampoline that make the handshake. *)
Definition ev_set : nat * call := (1%nat, mkcall (Store info_started 1)).
Definition ev_signal : nat * call := (1%nat, mkcall (condvarWakeOne info_cond)).
Definition ev_unlock : nat * call := (1%nat, mkcall (mutexUnlock info_mutex)).

(** The calls the trampoline has made by each phase, in order. *)
Definition phase_events (p : entry_phase) : list (nat * call) :=
  match p with
  | EntryStart | EntryLocked => []
  | EntrySet => [ev_set]
  | EntrySignaled => [ev_set; ev_signal]
  | EntryDone => [ev_set; ev_signal; ev_unlock]
  end.

Definition hist_ok (p : entry_phase) (h : list (nat * call)) : Prop :=
  phase_events p `sublist_of` h.

Lemma hist_ok_more p h l : hist_ok p h -> hist_ok p (h ++ l).
Proof. unfold hist_ok. apply sublist_inserts_r. Qed.

Ltac entry_neutral Hstep Hk Hrel :=
  let x := fresh "x" in
  let Hs := fresh "Hs" in
  destruct Hstep as (-> & x & Hs & ->);
  lazymatch type of Hs with
  | _ /\ _ => destruct Hs as [-> ->]
  | _ => subst
  end;
  eexists; split; [reflexivity|];
  split; [apply Hk; exact I|];
  split; [exact Hrel | intros hh; apply hist_ok_more].

Lemma entry_step_local s th s' th' new lab cv p :
  entry_thread p th ->
  create_rel s cv (Some p) ->
  tstep 1 s th s' th' new lab ->
  exists p',
    new = [] /\ entry_thread p' th' /\ create_rel s' cv (Some p') /\
    forall h, hist_ok p h -> hist_ok p' (h ++ labelled 1 lab).
Proof.
  intros Hth Hrel Hstep.
  destruct cv as [ph h z].
  destruct ph; try (destruct Hrel as [Hcontra _]; discriminate Hcontra).
  destruct th as [c | c m k |]; simpl in Hstep; [|contradiction..].
  destruct c as [ret | X e k |]; try contradiction.
  destruct Hstep as [-> Hstep]. simpl in Hth. destruct Hth as [Hal Hk].
  destruct e; simpl in Hal; try contradiction; simpl in Hstep.
  - (* Load *)
    subst a. destruct Hstep as (-> & x & (-> & ->) & ->).
    exists p. split; [reflexivity|].
    split; [apply Hk; simpl; intros _; apply Hrel|].
    split; [exact Hrel | intros hh; apply hist_ok_more].
  - (* Store *)
    destruct Hstep as (-> & [] & -> & ->).
    exists (entry_next p (Store a v) tt). split; [reflexivity|].
    split; [apply Hk; exact I|].
    hs_rel. destruct Hrel as (Hty & p0 & [= <-] & Hh & Hp & Hset & Hseen).
    unfold entry_next.
    destruct Hal as [(-> & -> & ->) | (-> & t & ->)].
    + case_decide; [|congruence]. split.
      * hs_rel. rewrite kints_set_kints_ne by discriminate.
        split; [exact Hty|]. exists EntrySet. split; [reflexivity|].
        simpl in *. intuition (try congruence; try discriminate).
      * intros hh _. apply sublist_inserts_l. reflexivity.
    + case_decide; [discriminate|]. split.
      * rewrite !kints_set_kints_ne by discriminate.
        split; [exact Hty|]. exists EntryDone. split; [reflexivity|].
        intuition (try congruence; try discriminate).
      * intros hh. apply hist_ok_more.
  - entry_neutral Hstep Hk Hrel.
  - entry_neutral Hstep Hk Hrel.
  - (* mutexLock *)
    destruct Hal as (-> & ->).
    destruct Hstep as (-> & [] & (Hfree & ->) & ->).
    exists EntryLocked. split; [reflexivity|].
    split; [apply Hk; exact I|].
    hs_rel. destruct Hrel as (Hty & p0 & [= <-] & Hh & Hp & Hset & Hseen).
    split.
    + split; [exact Hty|]. exists EntryLocked. split; [reflexivity|].
      rewrite Hfree in Hh. simpl in *.
      intuition (try congruence; try discriminate).
    + intros hh Hhh. exact (hist_ok_more EntryStart hh _ Hhh).
  - (* mutexUnlock *)
    destruct Hal as (-> & ->).
    destruct Hstep as (-> & [] & -> & ->).
    exists EntryDone. split; [reflexivity|].
    split; [apply Hk; exact I|].
    hs_rel. destruct Hrel as (Hty & p0 & [= <-] & Hh & Hp & Hset & Hseen).
    assert (Hown : owner s info_mutex = Some 1%nat) by now apply Hp.
    rewrite (release_held _ _ _ Hown). hs_rel. split.
    + split; [exact Hty|]. exists EntryDone. split; [reflexivity|].
      rewrite Hown in Hh. simpl in *.
      intuition (try congruence; try discriminate).
    + intros hh Hhh. unfold hist_ok in *. simpl.
      apply (sublist_app [ev_set; ev_signal] hh [ev_unlock] [ev_unlock]);
        [exact Hhh | reflexivity].
  - (* condvarWakeOne *)
    destruct Hal as (-> & ->).
    destruct Hstep as (-> & rc & -> & ->).
    exists EntrySignaled. split; [reflexivity|].
    split; [apply Hk; exact I|].
    hs_rel. destruct Hrel as (Hty & p0 & [= <-] & Hh & Hp & Hset & Hseen).
    split.
    + split; [exact Hty|]. exists EntrySignaled. split; [reflexivity|].
      simpl in *. intuition (try congruence; try discriminate).
    + intros hh Hhh. unfold hist_ok in *. simpl.
      apply (sublist_app [ev_set] hh [ev_signal] [ev_signal]);
        [exact Hhh | reflexivity].
  - (* svcExitThread *)
    subst p. destruct Hstep as (-> & -> & ->).
    exists EntryDone. split; [reflexivity|]. split; [reflexivity|].
    split; [exact Hrel | intros hh; apply hist_ok_more].
  - entry_neutral Hstep Hk Hrel.
  - entry_neutral Hstep Hk Hrel.
Qed.

(** The invariant of a system that starts as one call of [thrd_create]:
    thread 0 is the creator, and thread 1, once there, the trampoline. *)
Definition create_inv (y : sys) : Prop :=
  exists cv th0,
    creator_thread cv th0 /\
    ((pool y = [IntCall th0] /\ create_rel (ks y) cv None) \/
     (exists p th1,
        pool y = [IntCall th0; VoidCall th1] /\
        entry_thread p th1 /\
        create_rel (ks y) cv (Some p) /\
        hist_ok p (hist y))).

Lemma create_inv_step y y' : create_inv y -> step y y' -> create_inv y'.
Proof.
  intros (cv & th0 & Hth0 & Hinv) Hstep.
  destruct Hstep as [t a a' s' new lab y Hpool Htask].
  destruct Hinv as [(Hp & Hrel) | (p & th1 & Hp & Hth1 & Hrel & Hhist)];
    rewrite Hp in Hpool |- *.
  - destruct t as [|t]; [|destruct t; discriminate Hpool].
    injection Hpool as <-. destruct Htask as (th' & -> & Hts).
    destruct (create_step_local _ _ _ _ _ _ _ _ Hth0 Hrel Hts)
      as (cv' & Hth' & [(-> & Hrel') | (_ & -> & Hrel')]).
    + exists cv', th'. split; [exact Hth'|]. left. now split.
    + exists cv', th'. split; [exact Hth'|]. right.
      exists EntryStart, (Running (__thrd_entry info)).
      split; [reflexivity|]. split; [apply __thrd_entry_follows|].
      split; [exact Hrel'|]. apply sublist_nil_l.
  - destruct t as [|[|t]]; [| |destruct t; discriminate Hpool].
    + injection Hpool as <-. destruct Htask as (th' & -> & Hts).
      destruct (create_step_local _ _ _ _ _ _ _ _ Hth0 Hrel Hts)
        as (cv' & Hth' & [(-> & Hrel') | (Hcontra & _)]);
        [|discriminate Hcontra].
      exists cv', th'. split; [exact Hth'|]. right.
      exists p, th1. split; [reflexivity|]. split; [exact Hth1|].
      split; [exact Hrel'|]. now apply hist_ok_more.
    + injection Hpool as <-. destruct Htask as (th' & -> & Hts).
      destruct (entry_step_local _ _ _ _ _ _ _ _ Hth1 Hrel Hts)
        as (p' & -> & Hth' & Hrel' & Hhist').
      exists cv, th0. split; [exact Hth0|]. right.
      exists p', th'. split; [reflexivity|]. split; [exact Hth'|].
      split; [exact Hrel'|]. now apply Hhist'.
Qed.

Lemma create_inv_reachable y0 y :
  create_inv y0 -> reachable y0 y -> create_inv y.
Proof.
  intros Hinv Hreach. revert y Hreach. apply rtc_ind_r; [exact Hinv|].
  intros y1 y2 _ Hstep IH. eapply create_inv_step; eassumption.
Qed.

(** *** What the creator does once it has read the flag *)

(** [always Q p]: [Q] holds of [p] and of what remains of [p] after any
    number of calls, whatever the answers. *)
Fixpoint always {R} (Q : prog R -> Prop) (p : prog R) : Prop :=
  Q p /\
  match p with
  | Vis e k => forall x, always Q (k x)
  | _ => True
  end.

Definition always_thread {R} (Q : prog R -> Prop) (th : tstate R) : Prop :=
  match th with
  | Running p => always Q p
  | Waiting _ _ k => forall rc, always Q (k rc)
  | Exited => True
  end.

Lemma always_step {R} (Q : prog R -> Prop) t s (th : tstate R) s' th' new lab :
  always_thread Q th -> tstep t s th s' th' new lab -> always_thread Q th'.
Proof.
  intros Hth Hstep.
  destruct th as [p | c m k |]; simpl in Hstep; [|  | contradiction].
  - destruct p as [ret | X e k |]; try contradiction.
    destruct Hstep as [_ Hstep]. destruct Hth as [_ Hk].
    destruct e; simpl in Hstep;
      repeat match goal with
             | H : _ /\ _ |- _ => destruct H
             | H : ex _ |- _ => destruct H
             | H : _ \/ _ |- _ => destruct H
             end;
      subst; try contradiction; try exact I;
      try (intros rc; apply Hk); apply Hk.
  - destruct Hstep as (_ & _ & _ & _ & rc & ->). apply Hth.
Qed.

(** Whatever the other threads do, what thread 0 runs is what remains of
    the program it started with. *)
Lemma always_reachable (Q : prog Z -> Prop) p0 y0 y :
  pool y0 !! 0%nat = Some (IntCall (Running p0)) ->
  always Q p0 ->
  reachable y0 y ->
  exists th, pool y !! 0%nat = Some (IntCall th) /\ always_thread Q th.
Proof.
  intros Hp0 Hq Hreach. revert y Hreach. apply rtc_ind_r.
  { exists (Running p0). now split. }
  intros y1 y2 _ Hstep (th & Hth & Halw).
  destruct Hstep as [t a a' s' new lab y1 Hpool Htask]. cbn [pool].
  assert (Hlt : (0 < length (<[t := a']> (pool y1)))%nat).
  { rewrite length_insert. eapply lookup_lt_Some; eassumption. }
  rewrite lookup_app_l by exact Hlt.
  destruct t as [|t].
  - rewrite Hth in Hpool. injection Hpool as <-.
    destruct Htask as (th' & -> & Htstep).
    exists th'. split.
    + apply list_lookup_insert_eq. eapply lookup_lt_Some; eassumption.
    + eapply always_step; eassumption.
  - exists th. split; [|exact Halw].
    now rewrite list_lookup_insert_ne by discriminate.
Qed.

(** A program that is about to read the flag: if the flag reads as 0, it
    next reads the tag of the handshake mutex and, the tag being
    [mtx_plain], waits on the handshake condition variable with the
    handshake mutex and no deadline; when the wait returns it reads the flag
    again, unless the bound on the loop is reached. *)
Definition waits_when_clear (p : prog Z) : Prop :=
  match p with
  | Vis e k =>
      match e in event X return (X -> prog Z) -> Prop with
      | Load a => fun k =>
          a = info_started ->
          exists k1, k 0 = Vis (Load info_type) k1 /\
          exists k2,
            k1 mtx_plain =
              Vis (condvarWaitTimeout info_cond info_mutex U64_MAX) k2 /\
            forall rc,
              k2 rc = Spin \/ exists k3, k2 rc = Vis (Load info_started) k3
      | _ => fun _ => True
      end k
  | _ => True
  end.

Lemma loop_waits_when_clear fuel (rest : unit -> prog Z) :
  always waits_when_clear (rest tt) ->
  always waits_when_clear
    (bind (while fuel
             (started <- ! (Load (Fld f_thread_started info)) ;;
              Ret (started =? 0))
             (cnd_wait (Some (Fld f_cond info)) (Some (Fld f_mutex info)) ;;
              Ret tt))
          rest).
Proof.
  intros Hrest. induction fuel as [|n IH]; [now split|].
  unfold cnd_wait, __cnd_timedwait in *. simpl. split.
  - intros _. eexists. split; [reflexivity|].
    cbv beta. rewrite Z.eqb_refl. simpl. eexists. split; [reflexivity|].
    intros rc. destruct n; simpl; [now left | right; eexists; reflexivity].
  - intros x. destruct (x =? 0); simpl; [|exact Hrest].
    split; [intros E; discriminate E|]. intros ty.
    destruct (negb (ty =? mtx_plain)); simpl; [exact IH|].
    split; [exact I|]. intros rc. exact IH.
Qed.

(** Walks through a program: a call that is not a read of the flag, a
    branch, the loop. *)
Ltac shape_walk :=
  repeat (simpl;
          match goal with
          | |- True => exact I
          | |- always _ (bind (while _ _ _) _) => apply loop_waits_when_clear
          | |- _ /\ (forall x, _) =>
              split;
              [ first [exact I | let E := fresh in intros E; discriminate E]
              | intros ? ]
          | |- _ /\ True =>
              split;
              [ first [exact I | let E := fresh in intros E; discriminate E]
              | exact I ]
          | |- always _ ?p =>
              match p with
              | context [if ?b then _ else _] => destruct b
              | context [match ?x with Some _ => _ | None => _ end] =>
                  destruct x
              | context [let '(_, _) := ?x in _] => destruct x
              end
          end).

Lemma thrd_create_waits_when_clear fuel thr func arg :
  always waits_when_clear (thrd_create fuel info thr func arg).
Proof.
  unfold thrd_create, mtx_init, cnd_init, mtx_lock, mtx_unlock.
  destruct thr as [thr|]; [|now split].
  destruct func as [f|]; [|now split].
  shape_walk.
Qed.


(** At the start there is the call of [thrd_create] alone, and no call has
    been made. *)
Definition create_init (y0 : sys) (fuel : nat) (thr : ptr) (func : funptr)
    (arg : ptr) : Prop :=
  pool y0 = [IntCall (Running (thrd_create fuel info thr func arg))] /\
  hist y0 = [].

(** C6: when [thrd_create] has returned [thrd_success], the thread it
    started has already set the flag, signalled the condition variable and
    released the handshake mutex, in this order.  The trampoline sets the
    flag only while it holds that mutex, and the creator reads the flag and
    waits on the condition variable only while it holds it.  The creator
    blocks: whenever it is about to read the flag, what it does if the flag
    reads as 0 is to read the tag of the handshake mutex and then, the tag
    being [mtx_plain], to wait on the handshake condition variable with the
    handshake mutex and no deadline, and after the wait it reads the flag
    again (or the bound on the loop is reached). *)
Theorem thrd_create_returns_after_handshake fuel thr func arg y0 y :
  thrd_error <> thrd_success ->
  thrd_nomem <> thrd_success ->
  create_init y0 fuel thr func arg ->
  reachable y0 y ->
  (pool y !! 0%nat = Some (IntCall (Running (Ret thrd_success))) ->
   exists th1,
     pool y !! 1%nat = Some (VoidCall th1) /\
     [ev_set; ev_signal; ev_unlock] `sublist_of` hist y) /\
  (forall k,
     pool y !! 1%nat = Some (VoidCall (Running (Vis (Store info_started 1) k))) ->
     owner (ks y) info_mutex = Some 1%nat) /\
  (forall k,
     pool y !! 0%nat = Some (IntCall (Running (Vis (Load info_started) k))) ->
     owner (ks y) info_mutex = Some 0%nat) /\
  (forall c m timeout k,
     pool y !! 0%nat =
       Some (IntCall (Running (Vis (condvarWaitTimeout c m timeout) k))) ->
     c = info_cond /\ m = info_mutex /\ owner (ks y) info_mutex = Some 0%nat) /\
  (forall k,
     pool y !! 0%nat = Some (IntCall (Running (Vis (Load info_started) k))) ->
     kints (ks y) info_type = mtx_plain /\
     exists k1, k 0 = Vis (Load info_type) k1 /\
     exists k2,
       k1 mtx_plain = Vis (condvarWaitTimeout info_cond info_mutex U64_MAX) k2 /\
       forall rc,
         k2 rc = Spin \/ exists k3, k2 rc = Vis (Load info_started) k3).
Proof.
  intros Hne1 Hne2 (Hpool0 & Hhist0) Hreach.
  assert (Hshape : exists th, pool y !! 0%nat = Some (IntCall th) /\
                              always_thread waits_when_clear th).
  { apply (always_reachable waits_when_clear
             (thrd_create fuel info thr func arg) y0 y);
      [now rewrite Hpool0 | apply thrd_create_waits_when_clear | exact Hreach]. }
  assert (Hinv0 : create_inv y0).
  { exists (CreateView CRaw false false), (Running (thrd_create fuel info thr func arg)).
    split; [now apply thrd_create_follows|]. left.
    split; [exact Hpool0|]. now repeat split. }
  destruct (create_inv_reachable _ _ Hinv0 Hreach) as (cv & th0 & Hth0 & Hinv).
  destruct cv as [ph h z].
  assert (Hheld : forall th, pool y !! 0%nat = Some (IntCall th) ->
            th = th0 /\
            (ph = CStarted -> h = true -> owner (ks y) info_mutex = Some 0%nat)).
  { intros th Hth.
    destruct Hinv as [(Hp & Hrel) | (p & th1 & Hp & _ & Hrel & _)];
      rewrite Hp in Hth; injection Hth as <-; (split; [reflexivity|]);
      intros -> ->; hs_rel.
    - destruct Hrel as (_ & p & Hcontra & _). discriminate Hcontra.
    - destruct Hrel as (_ & p0 & _ & Hh & _). now apply Hh. }
  split; [|split; [|split; [|split]]].
  - intros Hret. destruct (Hheld _ Hret) as [<- _]. simpl in Hth0.
    destruct (Hth0 eq_refl) as [Hph Hz]. simpl in Hph, Hz. subst ph z.
    hs_rel.
    destruct Hinv as [(_ & Hrel) | (p & th1 & Hp & _ & Hrel & Hhist)].
    + destruct Hrel as (_ & p & Hcontra & _). discriminate Hcontra.
    + exists th1. split; [now rewrite Hp|].
      destruct Hrel as (_ & p0 & [= <-] & _ & _ & _ & Hseen).
      rewrite (Hseen eq_refl) in Hhist. exact Hhist.
  - intros k Hk.
    destruct Hinv as [(Hp & _) | (p & th1 & Hp & Hth1 & Hrel & _)];
      rewrite Hp in Hk; [discriminate Hk|].
    injection Hk as ->. destruct Hth1 as [Hal _]. simpl in Hal.
    destruct Hal as [(-> & _) | (_ & t & Ht)]; [|discriminate Ht].
    destruct ph; try (destruct Hrel as [Hcontra _]; discriminate Hcontra).
    hs_rel. destruct Hrel as (_ & p0 & [= <-] & _ & Hp' & _).
    now apply Hp'.
  - intros k Hk. destruct (Hheld _ Hk) as [<- Hown].
    destruct Hth0 as [Hal _]. simpl in Hal.
    destruct Hal as [[th Hth] | (Hph & [Hty | [_ Hh]])];
      [discriminate Hth | discriminate Hty | auto].
  - intros c m timeout k Hk. destruct (Hheld _ Hk) as [<- Hown].
    destruct Hth0 as [Hal _]. simpl in Hal.
    destruct Hal as (Hph & -> & -> & Hh). auto.
  - intros k Hk. split.
    + destruct (Hheld _ Hk) as [<- _].
      destruct Hth0 as [Hal _]. simpl in Hal.
      destruct Hal as [[th Hth] | (Hph & _)]; [discriminate Hth|].
      simpl in Hph. subst ph.
      destruct Hinv as [(_ & Hrel) | (p & th1 & _ & _ & Hrel & _)];
        hs_rel; apply Hrel.
    + destruct Hshape as (th & Hth & Halw).
      rewrite Hth in Hk. injection Hk as ->.
      destruct Halw as [Hq _]. exact (Hq eq_refl).
Qed.

End Handshake.

(** *** A concrete handshake *)

(** One call of [thrd_create] with its [__thrd_start_info] at [Obj 1]. *)
Definition creating : sys :=
  Sys fresh_kstate
    [IntCall (Running (@thrd_create newlib_threads_h 2 (Obj 1)
                         (Some (Obj 5)) (Some (fn_user 0)) None))]
    [].

Lemma creating_init :
  @create_init newlib_threads_h (Obj 1) creating 2 (Some (Obj 5))
    (Some (fn_user 0)) None.
Proof. split; reflexivity. Defined.

(** The creator starts the thread, finds the flag clear and waits; the
    trampoline takes the mutex, sets the flag, signals and releases; the
    creator resumes, finds the flag set and returns 4, [thrd_success].  The
    theorem finds the three calls of the trampoline in the history. *)
Lemma thrd_create_returns_after_handshake_witness :
  exists y,
    @reachable newlib_threads_h creating y /\
    pool y !! 0%nat = Some (IntCall (Running (Ret 4))) /\
    [ev_set (Obj 1); ev_signal (Obj 1); ev_unlock (Obj 1)] `sublist_of` hist y.
Proof.
  assert (Hreach : exists y,
    @reachable newlib_threads_h creating y /\
    pool y !! 0%nat = Some (IntCall (Running (Ret 4)))).
  { eexists. split.
    - unfold reachable, creating.
      do 13 thread_steps 0%nat.
      do 4 thread_steps 0%nat. thread_waits 0%nat.
      do 8 thread_steps 1%nat.
      do 5 thread_steps 0%nat.
      apply rtc_refl.
    - reflexivity. }
  destruct Hreach as (y & Hreach & Hret).
  exists y. split; [exact Hreach|]. split; [exact Hret|].
  destruct (proj1 (@thrd_create_returns_after_handshake newlib_threads_h
    (Obj 1) 2 (Some (Obj 5)) (Some (fn_user 0)) None creating y
    ltac:(discriminate) ltac:(discriminate) creating_init Hreach) Hret)
    as (th1 & _ & Hsub).
  exact Hsub.
Defined.

(** ** What every run of a function does and does not do *)

(** The protocol of a thread that keeps no view: [ok] says which calls it
    may make, and every answer is possible. *)
Definition only (ok : forall X, event X -> Prop) : protocol unit :=
  Protocol unit (fun _ => ok) (fun _ _ _ _ => True) (fun _ _ _ _ => tt).

(** [confined ok good p]: every call [p] makes satisfies [ok] and every
    value it returns satisfies [good], whatever the answers. *)
Definition confined {R} (ok : forall X, event X -> Prop) (good : R -> Prop)
    (p : prog R) : Prop :=
  follows (only ok) (fun _ => good) tt p.

Lemma confined_bind {A B} ok (mid : A -> Prop) (good : B -> Prop)
    (p : prog A) (f : A -> prog B) :
  confined ok mid p -> (forall a, mid a -> confined ok good (f a)) ->
  confined ok good (bind p f).
Proof.
  intros Hp Hf. unfold confined.
  apply (follows_bind _ (fun _ => mid)); [exact Hp|].
  intros [] a Ha. now apply Hf.
Qed.

Lemma follows_mono {V R} (P : protocol V) (f1 f2 : V -> R -> Prop) v
    (p : prog R) :
  (forall v' r, f1 v' r -> f2 v' r) ->
  follows P f1 v p -> follows P f2 v p.
Proof.
  intros Hf. revert v. induction p as [r | X e k IH |]; simpl; intros v Hp.
  - auto.
  - destruct Hp as [Hal Hk]. split; [exact Hal|]. intros x Hx.
    apply IH. now apply Hk.
  - exact I.
Qed.

Lemma confined_while ok (cond : prog bool) (body : prog unit) fuel :
  confined ok (fun _ => True) cond -> confined ok (fun _ => True) body ->
  confined ok (fun _ => True) (while fuel cond body).
Proof.
  intros Hc Hb. unfold confined.
  apply (follows_while _ (fun _ => True)); [|exact I].
  intros [] _. eapply follows_mono; [|exact Hc].
  intros [] [|] _; [exact Hb | exact I].
Qed.

Section Confined.
Variable K : kernel.

(** What [confined] promises holds of every run. *)
Lemma confined_run {R} ok (good : R -> Prop) (p : prog R) w :
  confined ok good p ->
  Forall (fun c => ok _ (projT2 c)) (performed w (snd (run K p w))) /\
  forall r, fst (run K p w) = Returned r -> good r.
Proof.
  unfold confined. revert w.
  induction p as [r | X e k IH |]; simpl; intros w Hp.
  - rewrite performed_refl. split; [constructor|]. now intros r' [= <-].
  - destruct Hp as [Hal Hk]. destruct (returns e).
    + destruct (IH _ (effect e w) (Hk (answer K e w) I)) as [Hev Hret].
      split; [|exact Hret].
      destruct (run_trace K (k (answer K e w)) (effect e w)) as [evs Hevs].
      rewrite (performed_app _ _ evs Hevs) in Hev.
      rewrite (performed_app w _ (mkcall e :: evs)).
      * constructor; assumption.
      * rewrite Hevs, effect_trace. now rewrite <- app_assoc.
    + split; [|discriminate].
      rewrite (performed_app w _ [mkcall e]) by apply effect_trace.
      constructor; [exact Hal | constructor].
  - rewrite performed_refl. split; [constructor | discriminate].
Qed.

End Confined.

(** *** Stores and return values *)

(** A call that is not a store, or a store to a cell of [A]. *)
Definition writes_within (A : addr -> Prop) : forall X, event X -> Prop :=
  fun X e =>
    match e with
    | Store a _ | StorePtr a _ | StoreFun a _ => A a
    | _ => True
    end.

(** Every run of [p] leaves the cells outside [A] as they were, and returns,
    if it returns, a value of [good]. *)
Definition behaves (K : kernel) {R} (p : prog R) (A : addr -> Prop)
    (good : R -> Prop) : Prop :=
  forall w,
    (forall v, fst (run K p w) = Returned v -> good v) /\
    (forall a, ~ A a ->
       ints (snd (run K p w)) a = ints w a /\
       ptrs (snd (run K p w)) a = ptrs w a /\
       funs (snd (run K p w)) a = funs w a).

Lemma effect_frame (A : addr -> Prop) {X} (e : event X) w a :
  writes_within A X e -> ~ A a ->
  ints (effect e w) a = ints w a /\
  ptrs (effect e w) a = ptrs w a /\
  funs (effect e w) a = funs w a.
Proof.
  intros He Ha.
  destruct e; simpl in *; repeat split; unfold upd;
    try reflexivity; (case_decide; [subst; contradiction | reflexivity]).
Qed.

Lemma confined_behaves K {R} (p : prog R) A good :
  confined (writes_within A) good p -> behaves K p A good.
Proof.
  intros Hp w. split; [apply (confined_run K _ _ _ w Hp)|].
  intros a Ha. revert w. unfold confined in Hp.
  induction p as [r | X e k IH |]; simpl; intros w.
  - now repeat split.
  - destruct Hp as [Hal Hk].
    destruct (effect_frame A e w a Hal Ha) as (Ei & Ep & Ef).
    destruct (returns e).
    + destruct (IH _ (Hk (answer K e w) I) (effect e w)) as (Hi & Hp' & Hf).
      rewrite Hi, Hp', Hf. now repeat split.
    + now repeat split.
  - now repeat split.
Qed.

(** Walks through a program under [confined]: each call, each branch, each
    loop. *)
Ltac walk :=
  repeat (simpl;
          lazymatch goal with
          | |- confined _ _ _ => unfold confined
          | |- _ /\ (forall x, _) =>
              split; [try exact I; simpl; eauto 6 | intros ? _]
          | |- follows _ _ _ (bind (while _ _ _) _) =>
              eapply (follows_bind _ (fun _ _ => True));
              [apply confined_while | intros [] ? _]
          | |- follows _ _ _ ?p =>
              match p with
              | context [if ?b then _ else _] => destruct b eqn:?
              | context [match ?x with Some _ => _ | None => _ end] =>
                  destruct x
              | context [let '(_, _) := ?x in _] => destruct x
              end
          end);
  try (repeat lazymatch goal with
              | |- context [if ?b then _ else _] => destruct b
              end;
       simpl; tauto).

Section StoresAndCodes.
Context {H : ThreadsH}.
Variable K : kernel.

Definition nothing : addr -> Prop := fun _ => False.

(** The two values the mutex and condition-variable functions return. *)
Definition success_or_error (r : Z) : Prop :=
  r = thrd_success \/ r = thrd_error.

(** The functions on a condition variable that do not wait return
    [thrd_success] or [thrd_error] and nothing else, and store nothing, in
    any world and whatever the kernel answers; [cnd_destroy] stores
    nothing. *)
Theorem cnd_functions_stores_and_codes cond :
  behaves K (cnd_broadcast cond) nothing success_or_error /\
  behaves K (cnd_init cond) nothing success_or_error /\
  behaves K (cnd_signal cond) nothing success_or_error /\
  behaves K (cnd_destroy cond) nothing (fun _ => True).
Proof.
  unfold success_or_error.
  repeat lazymatch goal with |- _ /\ _ => split end; apply confined_behaves;
    unfold cnd_broadcast, cnd_init, cnd_signal, cnd_destroy; walk.
Qed.

(** The functions that wait on a condition variable: the two waits return
    [thrd_success] or [thrd_error] and store nothing, whatever the kernel
    answers and however the wait ends; [call_once] stores to the status of
    its flag and to nothing else. *)
Theorem waiting_functions_stores_and_codes fuel cond mtx abs_time timeout flag
    func :
  behaves K (cnd_timedwait cond mtx abs_time) nothing success_or_error /\
  behaves K (cnd_wait cond mtx) nothing success_or_error /\
  behaves K (__cnd_timedwait cond mtx timeout) nothing success_or_error /\
  behaves K (call_once fuel flag func) (fun a => a = Fld f_status flag)
    (fun _ => True).
Proof.
  unfold success_or_error.
  repeat lazymatch goal with |- _ /\ _ => split end; apply confined_behaves;
    unfold call_once, cnd_timedwait, cnd_wait, cnd_broadcast, __cnd_timedwait,
      impl_timespec2nsec, mtx_lock, mtx_unlock; walk.
Qed.

(** The mutex functions return [thrd_success] or [thrd_error] and nothing
    else, whatever the tag of the mutex and whatever the kernel answers;
    [mtx_init] stores to the tag of its mutex only, and the others store
    nothing. *)
Theorem mtx_functions_stores_and_codes mtx type :
  behaves K (mtx_init mtx type)
    (fun a => exists m, mtx = Some m /\ a = Fld f_type m) success_or_error /\
  behaves K (mtx_lock mtx) nothing success_or_error /\
  behaves K (mtx_trylock mtx) nothing success_or_error /\
  behaves K (mtx_unlock mtx) nothing success_or_error /\
  behaves K (mtx_destroy mtx) nothing (fun _ => True).
Proof.
  unfold success_or_error.
  repeat lazymatch goal with |- _ /\ _ => split end; apply confined_behaves;
    unfold mtx_lock, mtx_trylock, mtx_unlock, mtx_init, mtx_destroy; walk.
Qed.

(** From creation to join: the cells of its [__thrd_start_info] and the
    caller's [*thr] are all [thrd_create] stores to, and it returns
    [thrd_success], [thrd_error] or [thrd_nomem]; the trampoline stores to
    the flag and to a return-code slot; [thrd_exit] to a return-code slot;
    [thrd_join] to [*res], and it returns [thrd_success] or [thrd_error]. *)
Theorem thread_lifecycle_stores_and_codes fuel info thr func arg joined res
    code :
  behaves K (thrd_create fuel info thr func arg)
    (fun a => thr = Some a \/ a = Fld f_func info \/ a = Fld f_arg info \/
              a = Fld f_thread_started info \/
              a = Fld f_type (Fld f_mutex info))
    (fun r => r = thrd_success \/ r = thrd_error \/ r = thrd_nomem) /\
  behaves K (__thrd_entry info)
    (fun a => a = Fld f_thread_started info \/ exists t, a = Fld f_rc t)
    (fun _ => True) /\
  behaves K (thrd_exit code) (fun a => exists t, a = Fld f_rc t)
    (fun _ => True) /\
  behaves K (thrd_join joined res) (fun a => res = Some a) success_or_error.
Proof.
  unfold success_or_error.
  repeat lazymatch goal with |- _ /\ _ => split end; apply confined_behaves.
  - unfold thrd_create, mtx_init, cnd_init, mtx_lock, mtx_unlock, cnd_wait,
      __cnd_timedwait. walk.
  - unfold __thrd_entry, thrd_exit, thrd_current, mtx_lock, mtx_unlock,
      cnd_signal. walk.
  - unfold thrd_exit, thrd_current. walk.
  - unfold thrd_join. walk.
Qed.

(** [thrd_sleep] stores to the two members of [*remaining] only and returns
    0 or -1; [thrd_equal] returns 0 or 1; [thrd_equal], [thrd_current] and
    [thrd_yield] store nothing. *)
Theorem thread_queries_stores_and_codes thr1 thr2 duration remaining :
  behaves K (thrd_sleep duration remaining)
    (fun a => exists r, remaining = Some r /\
                        (a = Fld f_tv_sec r \/ a = Fld f_tv_nsec r))
    (fun r => r = 0 \/ r = -1) /\
  behaves K thrd_yield nothing (fun _ => True) /\
  behaves K thrd_current nothing (fun _ => True) /\
  behaves K (thrd_equal thr1 thr2) nothing (fun r => r = 0 \/ r = 1).
Proof.
  repeat lazymatch goal with |- _ /\ _ => split end; apply confined_behaves.
  - unfold thrd_sleep, impl_timespec2nsec. walk.
  - unfold thrd_yield. walk.
  - unfold thrd_current. walk.
  - unfold thrd_equal. walk.
Qed.

End StoresAndCodes.

(** *** More sequential properties *)

Section Lifecycle.
Context {H : ThreadsH}.
Variable K : kernel.

Lemma upd_same {V} (h : addr -> V) a v : upd h a v a = v.
Proof. unfold upd. now rewrite decide_True. Qed.

Lemma upd_other {V} (h : addr -> V) a v b : a <> b -> upd h a v b = h b.
Proof. intros Hne. unfold upd. now rewrite decide_False. Qed.

(** Evaluates the tests on a tag that was just stored. *)
Ltac eval_tags :=
  repeat (progress (rewrite ?upd_same, ?Z.eqb_refl, ?eqb_plain_recursive);
          simpl).

(** Rewrites the events a run performed into an explicit list. *)
Ltac performed_list :=
  erewrite performed_app; [|simpl; rewrite <- ?app_assoc; reflexivity].

(** A mutex initialised with a kind is then locked, tried and unlocked
    through the kernel primitive of that kind, on the member of that kind:
    whatever the tag held before, the four calls of
    [mtx_init; mtx_lock; mtx_trylock; mtx_unlock] are the four plain ones or
    the four recursive ones, and the tag ends as the kind. *)
Theorem mutex_lifecycle_uses_one_primitive w m type :
  type = mtx_plain \/ type = mtx_recursive ->
  let r := run K (mtx_init (Some m) type ;; mtx_lock (Some m) ;;
                  mtx_trylock (Some m) ;; mtx_unlock (Some m)) w in
  calls (performed w (snd r)) =
    (if type =? mtx_plain
     then [mkcall (mutexInit (Fld f_mutex m)); mkcall (mutexLock (Fld f_mutex m));
           mkcall (mutexTryLock (Fld f_mutex m));
           mkcall (mutexUnlock (Fld f_mutex m))]
     else [mkcall (rmutexInit (Fld f_rmutex m));
           mkcall (rmutexLock (Fld f_rmutex m));
           mkcall (rmutexTryLock (Fld f_rmutex m));
           mkcall (rmutexUnlock (Fld f_rmutex m))]) /\
  fst r = Returned thrd_success /\
  ints (snd r) (Fld f_type m) = type.
Proof.
  intros [-> | ->]; unfold mtx_init, mtx_lock, mtx_trylock, mtx_unlock; simpl.
  - eval_tags. split; [|now split]. performed_list. reflexivity.
  - eval_tags. split; [|now split]. performed_list. reflexivity.
Qed.

(** A condition variable never waits with a mutex initialised as recursive:
    after [mtx_init] with [mtx_recursive], [cnd_wait] returns [thrd_error]
    and no wait reaches the kernel; after [mtx_init] with [mtx_plain] the
    wait does. *)
Theorem wait_after_init_needs_plain w c m :
  (let r := run K (mtx_init (Some m) mtx_recursive ;;
                   cnd_wait (Some c) (Some m)) w in
   fst r = Returned thrd_error /\
   calls (performed w (snd r)) = [mkcall (rmutexInit (Fld f_rmutex m))]) /\
  (let r := run K (mtx_init (Some m) mtx_plain ;;
                   cnd_wait (Some c) (Some m)) w in
   calls (performed w (snd r)) =
     [mkcall (mutexInit (Fld f_mutex m));
      mkcall (condvarWaitTimeout c (Fld f_mutex m) U64_MAX)]).
Proof.
  unfold mtx_init, cnd_wait, __cnd_timedwait. split; simpl.
  - eval_tags. split; [reflexivity|]. performed_list. reflexivity.
  - eval_tags. performed_list. reflexivity.
Qed.

(** The handle a thread object holds. *)
Definition handle_of (w : world) (t : addr) : Z :=
  ints w (Fld f_handle (Fld f_thr t)).

(** [thrd_equal] compares kernel handles: on two non-null threads it
    returns 1 exactly when their handles are equal, so it is reflexive,
    symmetric and transitive there; with a null argument it returns 0; and
    it calls nothing. *)
Theorem thrd_equal_compares_handles w t1 t2 t3 thr :
  (fst (run K (thrd_equal (Some t1) (Some t2)) w) = Returned 1 <->
   handle_of w t1 = handle_of w t2) /\
  (fst (run K (thrd_equal (Some t1) (Some t2)) w) = Returned 0 <->
   handle_of w t1 <> handle_of w t2) /\
  fst (run K (thrd_equal (Some t1) (Some t1)) w) = Returned 1 /\
  fst (run K (thrd_equal (Some t1) (Some t2)) w) =
    fst (run K (thrd_equal (Some t2) (Some t1)) w) /\
  (fst (run K (thrd_equal (Some t1) (Some t2)) w) = Returned 1 ->
   fst (run K (thrd_equal (Some t2) (Some t3)) w) = Returned 1 ->
   fst (run K (thrd_equal (Some t1) (Some t3)) w) = Returned 1) /\
  run K (thrd_equal None thr) w = (Returned 0, w) /\
  run K (thrd_equal thr None) w = (Returned 0, w) /\
  calls (performed w (snd (run K (thrd_equal (Some t1) (Some t2)) w))) = [].
Proof.
  assert (E : forall a b, fst (run K (thrd_equal (Some a) (Some b)) w) =
                Returned (if handle_of w a =? handle_of w b then 1 else 0)).
  { reflexivity. }
  rewrite !E. unfold handle_of in *.
  split; [|split; [|split; [|split; [|split; [|split; [|split]]]]]].
  - destruct (Z.eqb_spec (ints w (Fld f_handle (Fld f_thr t1)))
                         (ints w (Fld f_handle (Fld f_thr t2))));
      split; congruence.
  - destruct (Z.eqb_spec (ints w (Fld f_handle (Fld f_thr t1)))
                         (ints w (Fld f_handle (Fld f_thr t2))));
      split; congruence.
  - now rewrite Z.eqb_refl.
  - now rewrite Z.eqb_sym.
  - destruct (Z.eqb_spec (ints w (Fld f_handle (Fld f_thr t1)))
                         (ints w (Fld f_handle (Fld f_thr t2)))) as [->|];
      [|discriminate]. auto.
  - reflexivity.
  - destruct thr; reflexivity.
  - simpl. performed_list. reflexivity.
Qed.

(** The number of nanoseconds a [timespec] stands for is computed modulo
    2^64: it is exact for non-negative members whose total fits a [u64],
    and it is the timeout [cnd_timedwait] hands to the kernel wait. *)
Theorem timespec_conversion w ts c m :
  let total := ints w (Fld f_tv_sec ts) * 1000000000 + ints w (Fld f_tv_nsec ts) in
  fst (run K (impl_timespec2nsec ts) w) = Returned (total mod 2 ^ 64) /\
  0 <= total mod 2 ^ 64 < 2 ^ 64 /\
  (0 <= total < 2 ^ 64 ->
   fst (run K (impl_timespec2nsec ts) w) = Returned total) /\
  (ints w (Fld f_type m) = mtx_plain ->
   calls (performed w
            (snd (run K (cnd_timedwait (Some c) (Some m) (Some ts)) w))) =
     [mkcall (condvarWaitTimeout c (Fld f_mutex m) (total mod 2 ^ 64))]).
Proof.
  intros total.
  assert (E : fst (run K (impl_timespec2nsec ts) w) = Returned (total mod 2 ^ 64)).
  { simpl. now rewrite u64_timespec. }
  split; [exact E|]. split; [apply Z.mod_pos_bound; lia|]. split.
  - intros Hfit. rewrite E. now rewrite Z.mod_small.
  - intros Ety. unfold cnd_timedwait. rewrite impl_timespec2nsec_run.
    rewrite __cnd_timedwait_plain by assumption.
    performed_list. reflexivity.
Qed.

(** *** The once-guard, one caller at a time *)

(** The calls [call_once] makes when it runs the function, and when it
    finds it done. *)
Definition once_runs (flag : addr) (func : funptr) : list call :=
  [mkcall (mutexLock (Fld f_mutex (Fld f_mutex flag)));
   mkcall (mutexUnlock (Fld f_mutex (Fld f_mutex flag)));
   mkcall (call_void func);
   mkcall (mutexLock (Fld f_mutex (Fld f_mutex flag)));
   mkcall (condvarWakeAll (Fld f_cond flag));
   mkcall (mutexUnlock (Fld f_mutex (Fld f_mutex flag)))].
Definition once_skips (flag : addr) : list call :=
  [mkcall (mutexLock (Fld f_mutex (Fld f_mutex flag)));
   mkcall (mutexUnlock (Fld f_mutex (Fld f_mutex flag)))].

Lemma call_once_first w fuel flag g :
  ints w (Fld f_type (Fld f_mutex flag)) = mtx_plain ->
  ints w (Fld f_status flag) = 0 ->
  let r := run K (call_once fuel flag (Some g)) w in
  fst r = Returned tt /\
  calls (performed w (snd r)) = once_runs flag (Some g) /\
  ints (snd r) = upd (upd (ints w) (Fld f_status flag) 1) (Fld f_status flag) 2.
Proof.
  intros Ety Est. unfold call_once, mtx_lock, mtx_unlock, cnd_broadcast. simpl.
  repeat (progress (rewrite ?upd_same; rewrite ?upd_other by discriminate;
                    rewrite ?Ety, ?Est, ?Z.eqb_refl); simpl).
  split; [reflexivity|]. split; [|reflexivity].
  performed_list. reflexivity.
Qed.

Lemma call_once_later w fuel flag func :
  ints w (Fld f_type (Fld f_mutex flag)) = mtx_plain ->
  ints w (Fld f_status flag) <> 0 ->
  ints w (Fld f_status flag) <> 1 ->
  let r := run K (call_once (S fuel) flag func) w in
  fst r = Returned tt /\
  calls (performed w (snd r)) = once_skips flag /\
  ints (snd r) = ints w.
Proof.
  intros Ety E0 E1. apply Z.eqb_neq in E0, E1.
  unfold call_once, mtx_lock, mtx_unlock. simpl.
  repeat (progress (rewrite ?Ety, ?E0, ?E1, ?Z.eqb_refl); simpl).
  split; [reflexivity|]. split; [|reflexivity].
  performed_list. reflexivity.
Qed.

Lemma run_bind {A B} (p : prog A) (f : A -> prog B) w :
  run K (bind p f) w =
  match run K p w with
  | (Returned a, w') => run K (f a) w'
  | (Stopped, w') => (Stopped, w')
  | (Spinning, w') => (Spinning, w')
  end.
Proof.
  revert w. induction p as [a | X e k IH |]; intros w; simpl.
  - reflexivity.
  - destruct (returns e); [apply IH | reflexivity].
  - reflexivity.
Qed.

(** The events of two runs, one after the other. *)
Lemma performed_then {A B} (p : prog A) (q : prog B) w :
  performed w (snd (run K q (snd (run K p w)))) =
  performed w (snd (run K p w)) ++
  performed (snd (run K p w)) (snd (run K q (snd (run K p w)))).
Proof.
  destruct (run_trace K p w) as [evs1 E1].
  destruct (run_trace K q (snd (run K p w))) as [evs2 E2].
  rewrite (performed_app _ _ _ E1), (performed_app _ _ _ E2).
  apply performed_app. rewrite E2, E1. now rewrite <- app_assoc.
Qed.

(** One caller after the other: on a flag with status 0 whose mutex is
    plain, [call_once] with a function runs it once, outside the mutex, and
    leaves status 2; on a flag whose status is neither 0 nor 1 it takes and
    releases the mutex and does nothing else, whatever its function; so of
    two calls in sequence only the first runs its function.  With a null
    function on a flag with status 0 it stores 1, releases the mutex and
    goes through [NULL]: it does not return, and the status stays 1. *)
Theorem call_once_in_sequence w fuel1 fuel2 flag g1 f2 :
  ints w (Fld f_type (Fld f_mutex flag)) = mtx_plain ->
  (ints w (Fld f_status flag) = 0 ->
   fst (run K (call_once fuel1 flag (Some g1)) w) = Returned tt /\
   calls (performed w (snd (run K (call_once fuel1 flag (Some g1)) w))) =
     once_runs flag (Some g1) /\
   ints (snd (run K (call_once fuel1 flag (Some g1)) w)) (Fld f_status flag) =
     2) /\
  (ints w (Fld f_status flag) <> 0 -> ints w (Fld f_status flag) <> 1 ->
   fst (run K (call_once (S fuel2) flag f2) w) = Returned tt /\
   calls (performed w (snd (run K (call_once (S fuel2) flag f2) w))) =
     once_skips flag /\
   ints (snd (run K (call_once (S fuel2) flag f2) w)) = ints w) /\
  (ints w (Fld f_status flag) = 0 ->
   let r := run K (call_once fuel1 flag (Some g1) ;;
                   call_once (S fuel2) flag f2) w in
   fst r = Returned tt /\
   calls (performed w (snd r)) = once_runs flag (Some g1) ++ once_skips flag /\
   ints (snd r) (Fld f_status flag) = 2) /\
  (ints w (Fld f_status flag) = 0 ->
   let r := run K (call_once fuel1 flag None) w in
   fst r = Stopped /\
   calls (performed w (snd r)) =
     [mkcall (mutexLock (Fld f_mutex (Fld f_mutex flag)));
      mkcall (mutexUnlock (Fld f_mutex (Fld f_mutex flag)));
      mkcall null_deref] /\
   ints (snd r) (Fld f_status flag) = 1).
Proof.
  intros Ety.
  split; [|split; [|split]].
  - intros Est. destruct (call_once_first w fuel1 flag g1 Ety Est) as (Hr & Hc & Hi).
    split; [exact Hr|]. split; [exact Hc|]. rewrite Hi. apply upd_same.
  - intros E0 E1. exact (call_once_later w fuel2 flag f2 Ety E0 E1).
  - intros Est. cbv zeta.
    destruct (call_once_first w fuel1 flag g1 Ety Est) as (Hr & Hc & Hi).
    rewrite run_bind.
    destruct (run K (call_once fuel1 flag (Some g1)) w) as [o w1] eqn:Erun.
    cbn [fst snd] in Hr, Hc, Hi. subst o.
    assert (Ety1 : ints w1 (Fld f_type (Fld f_mutex flag)) = mtx_plain).
    { rewrite Hi, !upd_other by discriminate. exact Ety. }
    assert (Est1 : ints w1 (Fld f_status flag) = 2).
    { rewrite Hi. apply upd_same. }
    destruct (call_once_later w1 fuel2 flag f2 Ety1) as (Hr2 & Hc2 & Hi2);
      [rewrite Est1; discriminate..|].
    split; [exact Hr2|]. split; [|now rewrite Hi2].
    pose proof (performed_then (call_once fuel1 flag (Some g1))
                  (call_once (S fuel2) flag f2) w) as Hp.
    rewrite Erun in Hp. cbn [fst snd] in Hp. rewrite Hp, calls_app, Hc, Hc2.
    reflexivity.
  - intros Est. unfold call_once, mtx_lock, mtx_unlock. simpl.
    repeat (progress (rewrite ?upd_same; rewrite ?upd_other by discriminate;
                      rewrite ?Ety, ?Est, ?Z.eqb_refl); simpl).
    split; [reflexivity|]. split; [performed_list; reflexivity|].
    reflexivity.
Qed.

(** *** Threads, one at a time *)

(** [thrd_exit] never returns: it stores the code in the return-code slot
    of the thread that [ThreadVars] names and ends the thread; if
    [ThreadVars] names no thread it goes through [NULL] and stores
    nothing. *)
Theorem thrd_exit_stores_and_stops w res :
  let vars := K _ (trace w) getThreadVars in
  fst (run K (thrd_exit res) w) = Stopped /\
  (forall t, ptrs w (Fld f_thread_ptr vars) = Some t ->
     ints (snd (run K (thrd_exit res) w)) = upd (ints w) (Fld f_rc t) res /\
     calls (performed w (snd (run K (thrd_exit res) w))) =
       [mkcall getThreadVars; mkcall svcExitThread]) /\
  (ptrs w (Fld f_thread_ptr vars) = None ->
     ints (snd (run K (thrd_exit res) w)) = ints w /\
     calls (performed w (snd (run K (thrd_exit res) w))) =
       [mkcall getThreadVars; mkcall null_deref]).
Proof.
  intros vars. unfold thrd_exit, thrd_current. simpl. fold vars.
  destruct (ptrs w (Fld f_thread_ptr vars)) as [t|]; simpl.
  - split; [reflexivity|]. split; [|discriminate].
    intros ? [= <-]. split; [reflexivity|]. performed_list. reflexivity.
  - split; [reflexivity|]. split; [discriminate|].
    intros _. split; [reflexivity|]. performed_list. reflexivity.
Qed.

(** The trampoline, on a handshake record whose mutex is plain and whose
    function is not null: everything it does, loads and stores included, in
    order.  It reads the function and the argument from the record, takes
    the mutex, stores the flag, signals, releases the mutex, and only then
    calls the function with the argument; it stores what the function
    returns in the return-code slot of its thread and ends the thread.  It
    never returns. *)
Theorem __thrd_entry_runs_start_function w info vars rc t f :
  ints w (Fld f_type (Fld f_mutex info)) = mtx_plain ->
  funs w (Fld f_func info) = Some f ->
  (forall tr, K _ tr getThreadVars = vars) ->
  (forall tr g a, K _ tr (call_start g a) = rc) ->
  ptrs w (Fld f_thread_ptr vars) = Some t ->
  let r := run K (__thrd_entry info) w in
  fst r = Stopped /\
  performed w (snd r) =
    [mkcall (LoadFun (Fld f_func info));
     mkcall (LoadPtr (Fld f_arg info));
     mkcall (Load (Fld f_type (Fld f_mutex info)));
     mkcall (mutexLock (Fld f_mutex (Fld f_mutex info)));
     mkcall (Store (Fld f_thread_started info) 1);
     mkcall (condvarWakeOne (Fld f_cond info));
     mkcall (Load (Fld f_type (Fld f_mutex info)));
     mkcall (mutexUnlock (Fld f_mutex (Fld f_mutex info)));
     mkcall (call_start (Some f) (ptrs w (Fld f_arg info)));
     mkcall getThreadVars;
     mkcall (LoadPtr (Fld f_thread_ptr vars));
     mkcall (Store (Fld f_rc t) rc);
     mkcall svcExitThread] /\
  ints (snd r) (Fld f_thread_started info) = 1 /\
  ints (snd r) (Fld f_rc t) = rc.
Proof.
  intros Ety Hf Hvars Hrc Hptr.
  unfold __thrd_entry, thrd_exit, thrd_current, mtx_lock, mtx_unlock,
    cnd_signal. simpl.
  repeat (progress (rewrite ?upd_same; rewrite ?upd_other by discriminate;
                    rewrite ?Ety, ?Hf, ?Hvars, ?Hrc, ?Hptr, ?Z.eqb_refl);
          simpl).
  split; [reflexivity|]. split; [performed_list; reflexivity|].
  split; reflexivity.
Qed.

(** The creator's loop, followed by [rest]. *)
Definition create_loop (fuel : nat) (info : addr) (rest : unit -> prog Z) : prog Z :=
  bind (while fuel
          (started <- ! (Load (Fld f_thread_started info)) ;; Ret (started =? 0))
          (cnd_wait (Some (Fld f_cond info)) (Some (Fld f_mutex info)) ;; Ret tt))
       rest.

Definition create_wait (info : addr) : call :=
  mkcall (condvarWaitTimeout (Fld f_cond info) (Fld f_mutex (Fld f_mutex info))
            U64_MAX).

Lemma create_loop_iterates n info rest w :
  ints w (Fld f_thread_started info) = 0 ->
  ints w (Fld f_type (Fld f_mutex info)) = mtx_plain ->
  run K (create_loop (S n) info rest) w =
  run K (create_loop n info rest)
    (log (condvarWaitTimeout (Fld f_cond info) (Fld f_mutex (Fld f_mutex info))
            U64_MAX)
       (log (Load (Fld f_type (Fld f_mutex info)))
          (log (Load (Fld f_thread_started info)) w))).
Proof.
  intros Est Ety. unfold create_loop, cnd_wait, __cnd_timedwait. simpl.
  rewrite Est. simpl. rewrite Ety, Z.eqb_refl. reflexivity.
Qed.

(** While nobody sets the flag, the creator's loop keeps waiting: every
    iteration is one kernel wait, and the loop is not left. *)
Lemma create_wait_spins fuel info rest w :
  ints w (Fld f_thread_started info) = 0 ->
  ints w (Fld f_type (Fld f_mutex info)) = mtx_plain ->
  fst (run K (create_loop fuel info rest) w) = Spinning /\
  ints (snd (run K (create_loop fuel info rest) w)) = ints w /\
  ptrs (snd (run K (create_loop fuel info rest) w)) = ptrs w /\
  funs (snd (run K (create_loop fuel info rest) w)) = funs w /\
  calls (performed w (snd (run K (create_loop fuel info rest) w))) =
    repeat (create_wait info) fuel.
Proof.
  revert w. induction fuel as [|n IH]; intros w Est Ety.
  - simpl. rewrite performed_refl. now repeat split.
  - rewrite create_loop_iterates by assumption.
    set (w3 := log _ (log _ (log _ w))).
    destruct (IH w3 Est Ety) as (Hr & Hi & Hp & Hf & Hc).
    split; [exact Hr|]. split; [exact Hi|]. split; [exact Hp|].
    split; [exact Hf|].
    destruct (run_trace K (create_loop n info rest) w3) as [evs Hevs].
    rewrite (performed_app _ _ _ Hevs) in Hc.
    rewrite (performed_app w _
      ([mkcall (Load (Fld f_thread_started info));
        mkcall (Load (Fld f_type (Fld f_mutex info)));
        create_wait info] ++ evs)).
    + rewrite calls_app, Hc. reflexivity.
    + rewrite Hevs. unfold w3. simpl. now rewrite <- !app_assoc.
Qed.

(** What remains of [thrd_create] once the loop is left. *)
Definition create_tail (info thr t : addr) : unit -> prog Z :=
  fun _ =>
    mtx_unlock (Some (Fld f_mutex info)) ;;
    ! (StorePtr thr (Some t)) ;;
    Ret thrd_success.

(** The calls [thrd_create] makes up to [threadCreate], for a record at
    [info] and a handle allocated at [t]. *)
Definition create_setup (info t : addr) : list call :=
  [mkcall (svcGetInfo 0 CUR_PROCESS_HANDLE 0);
   mkcall (malloc sizeof___thrd_t);
   mkcall (mutexInit (Fld f_mutex (Fld f_mutex info)));
   mkcall (condvarInit (Fld f_cond info));
   mkcall (threadCreate (Fld f_thr t) fn___thrd_entry info (128 * 1024) 0x3B (-2))].

Section CreateOutcomes.
Variables (mask rc_create rc_mask rc_start : Z) (t : addr).
Hypothesis info_ok : forall tr a b c, K _ tr (svcGetInfo a b c) = (0, mask).
Hypothesis malloc_ok : forall tr sz, K _ tr (malloc sz) = Some t.
Hypothesis create_rc :
  forall tr th e a s p c, K _ tr (threadCreate th e a s p c) = rc_create.
Hypothesis mask_rc :
  forall tr h c m, K _ tr (svcSetThreadCoreMask h c m) = rc_mask.
Hypothesis start_rc : forall tr th, K _ tr (threadStart th) = rc_start.

Ltac create_eval :=
  repeat (progress (rewrite ?upd_same; rewrite ?upd_other by congruence;
                    rewrite ?info_ok, ?malloc_ok, ?create_rc, ?mask_rc,
                      ?start_rc, ?Z.eqb_refl);
          simpl).

(** The outcomes of [thrd_create] once the core mask is known and the
    handle allocated: a failed [threadCreate] frees the handle; a failed
    [svcSetThreadCoreMask] or [threadStart] closes the thread and then frees
    the handle; in each case the call returns [thrd_error] and [*thr] stays
    null.  When the thread is started and nobody sets the flag, the call
    takes the handshake mutex and waits, once per iteration, without
    returning; the record then holds the function and its argument. *)
Theorem thrd_create_outcomes w fuel info thr f arg :
  thr <> Fld f_arg info ->
  let r := run K (thrd_create fuel info (Some thr) (Some f) arg) w in
  let set_mask :=
    mkcall (svcSetThreadCoreMask (ints w (Fld f_handle (Fld f_thr t))) (-1) mask) in
  (rc_create <> 0 ->
   fst r = Returned thrd_error /\
   calls (performed w (snd r)) = create_setup info t ++ [mkcall (free t)] /\
   ptrs (snd r) thr = None) /\
  (rc_create = 0 -> rc_mask <> 0 ->
   fst r = Returned thrd_error /\
   calls (performed w (snd r)) =
     create_setup info t ++
     [set_mask; mkcall (threadClose (Fld f_thr t)); mkcall (free t)] /\
   ptrs (snd r) thr = None) /\
  (rc_create = 0 -> rc_mask = 0 -> rc_start <> 0 ->
   fst r = Returned thrd_error /\
   calls (performed w (snd r)) =
     create_setup info t ++
     [set_mask; mkcall (threadStart (Fld f_thr t));
      mkcall (threadClose (Fld f_thr t)); mkcall (free t)] /\
   ptrs (snd r) thr = None) /\
  (rc_create = 0 -> rc_mask = 0 -> rc_start = 0 ->
   fst r = Spinning /\
   calls (performed w (snd r)) =
     create_setup info t ++
     [set_mask; mkcall (threadStart (Fld f_thr t));
      mkcall (mutexLock (Fld f_mutex (Fld f_mutex info)))] ++
     repeat (create_wait info) fuel /\
   ptrs (snd r) thr = None /\
   funs (snd r) (Fld f_func info) = Some f /\
   ptrs (snd r) (Fld f_arg info) = arg).
Proof.
  intros Hthr. cbv zeta.
  split; [|split; [|split]].
  - intros Hrc. apply Z.eqb_neq in Hrc.
    unfold thrd_create, mtx_init, cnd_init, R_FAILED. simpl.
    create_eval. rewrite Hrc. simpl. create_eval.
    split; [reflexivity|]. split; [|reflexivity].
    performed_list. reflexivity.
  - intros -> Hrc. apply Z.eqb_neq in Hrc.
    unfold thrd_create, mtx_init, cnd_init, R_FAILED. simpl.
    create_eval. rewrite Hrc. simpl. create_eval.
    split; [reflexivity|]. split; [|reflexivity].
    performed_list. reflexivity.
  - intros -> -> Hrc. apply Z.eqb_neq in Hrc.
    unfold thrd_create, mtx_init, cnd_init, R_FAILED. simpl.
    create_eval. rewrite Hrc. simpl. create_eval.
    split; [reflexivity|]. split; [|reflexivity].
    performed_list. reflexivity.
  - intros -> -> ->.
    unfold thrd_create, mtx_init, cnd_init, mtx_lock, R_FAILED. simpl.
    create_eval.
    match goal with
    | |- context [run K ?p ?w1] =>
        set (w' := w1);
        change p with (create_loop fuel info (create_tail info thr t))
    end.
    assert (Est : ints w' (Fld f_thread_started info) = 0).
    { unfold w'. simpl. rewrite upd_other by discriminate. apply upd_same. }
    assert (Ety : ints w' (Fld f_type (Fld f_mutex info)) = mtx_plain).
    { unfold w'. simpl. apply upd_same. }
    destruct (create_wait_spins fuel info (create_tail info thr t) w' Est Ety)
      as (Hr & Hi & Hp & Hf & Hc).
    split; [exact Hr|]. rewrite Hp, Hf. split.
    + destruct (run_trace K (create_loop fuel info (create_tail info thr t)) w')
        as [evs Hevs].
      rewrite (performed_app _ _ _ Hevs) in Hc.
      erewrite performed_app;
        [|rewrite Hevs; unfold w'; simpl; rewrite <- !app_assoc; reflexivity].
      rewrite !calls_app, Hc. reflexivity.
    + unfold w'. simpl.
      split; [rewrite upd_other by congruence; apply upd_same|].
      split; apply upd_same.
Qed.

End CreateOutcomes.

(** [thrd_create] gives up before it touches the kernel's threads: with a
    null [thr] or a null [func] it returns [thrd_error] and does nothing at
    all; when [svcGetInfo] fails it returns [thrd_error] and when [malloc]
    returns null it returns [thrd_nomem], in both cases having only cleared
    [*thr]: nothing is allocated or freed, no thread is created, and the
    handshake record is not written. *)
Theorem thrd_create_early_failures w fuel info thr f arg rc mask :
  (forall tr a b c, K _ tr (svcGetInfo a b c) = (rc, mask)) ->
  (forall func, run K (thrd_create fuel info None func arg) w =
                (Returned thrd_error, w)) /\
  (forall thr', run K (thrd_create fuel info thr' None arg) w =
                (Returned thrd_error, w)) /\
  (rc <> 0 ->
   let r := run K (thrd_create fuel info (Some thr) (Some f) arg) w in
   fst r = Returned thrd_error /\
   calls (performed w (snd r)) = [mkcall (svcGetInfo 0 CUR_PROCESS_HANDLE 0)] /\
   ptrs (snd r) = upd (ptrs w) thr None /\
   ints (snd r) = ints w /\ funs (snd r) = funs w) /\
  (rc = 0 -> (forall tr sz, K _ tr (malloc sz) = None) ->
   let r := run K (thrd_create fuel info (Some thr) (Some f) arg) w in
   fst r = Returned thrd_nomem /\
   calls (performed w (snd r)) =
     [mkcall (svcGetInfo 0 CUR_PROCESS_HANDLE 0); mkcall (malloc sizeof___thrd_t)] /\
   ptrs (snd r) = upd (ptrs w) thr None /\
   ints (snd r) = ints w /\ funs (snd r) = funs w).
Proof.
  intros Hinfo. split; [|split; [|split]].
  - reflexivity.
  - intros [?|]; reflexivity.
  - intros Hrc. apply Z.eqb_neq in Hrc.
    unfold thrd_create, R_FAILED. simpl. rewrite Hinfo, Hrc. simpl.
    split; [reflexivity|]. split; [performed_list; reflexivity|].
    now repeat split.
  - intros -> Hmalloc.
    unfold thrd_create, R_FAILED. simpl. rewrite Hinfo. simpl.
    rewrite Hmalloc. simpl.
    split; [reflexivity|]. split; [performed_list; reflexivity|].
    now repeat split.
Qed.

(** The exit code makes the round trip: when a thread has left through
    [thrd_exit] with a code, [thrd_join] on that thread, once the kernel
    wait succeeds, stores that code in [*res], closes the thread and frees
    its handle, and its result says whether the close succeeded. *)
Theorem exit_code_reaches_join w code t vars res rc_close :
  K _ (trace w) getThreadVars = vars ->
  (forall tr th, K _ tr (threadWaitForExit th) = 0) ->
  (forall tr th, K _ tr (threadClose th) = rc_close) ->
  ptrs w (Fld f_thread_ptr vars) = Some t ->
  let w1 := snd (run K (thrd_exit code) w) in
  let r := run K (thrd_join t (Some res)) w1 in
  ints (snd r) res = code /\
  calls (performed w1 (snd r)) =
    [mkcall (threadWaitForExit (Fld f_thr t));
     mkcall (threadClose (Fld f_thr t)); mkcall (free t)] /\
  fst r = Returned (if rc_close =? 0 then thrd_success else thrd_error).
Proof.
  intros Hvars Hwait Hclose Hptr.
  unfold thrd_exit, thrd_current, thrd_join, R_FAILED, R_SUCCEEDED. simpl.
  rewrite Hvars, Hptr. simpl. rewrite Hwait. simpl.
  rewrite Hclose, !upd_same.
  split; [reflexivity|]. split; [performed_list; reflexivity|].
  reflexivity.
Qed.

(** A thread is equal to itself: [thrd_equal] on two results of
    [thrd_current] returns 1 when [ThreadVars] names a thread, and 0 when
    its thread pointer is null; the comparison stores nothing. *)
Theorem thrd_current_equals_itself w vars :
  (forall tr, K _ tr getThreadVars = vars) ->
  let r := run K (a <- thrd_current ;; b <- thrd_current ;; thrd_equal a b) w in
  fst r = Returned (match ptrs w (Fld f_thread_ptr vars) with
                    | Some _ => 1
                    | None => 0
                    end) /\
  calls (performed w (snd r)) = [mkcall getThreadVars; mkcall getThreadVars] /\
  ints (snd r) = ints w /\ ptrs (snd r) = ptrs w /\ funs (snd r) = funs w.
Proof.
  intros Hvars. unfold thrd_current, thrd_equal. simpl. rewrite !Hvars.
  destruct (ptrs w (Fld f_thread_ptr vars)) as [t|]; simpl.
  - rewrite Z.eqb_refl. split; [reflexivity|].
    split; [performed_list; reflexivity|]. now repeat split.
  - split; [reflexivity|].
    split; [performed_list; reflexivity|]. now repeat split.
Qed.

(** The calls of a trace that go to a thread's start function. *)
Definition is_start (c : call) : bool :=
  match projT2 c with
  | call_start _ _ => true
  | _ => false
  end.
Definition start_calls (tr : list call) : list call :=
  filter (fun c => is_start c = true) tr.

(** Whatever the tag of the record's mutex and whatever the kernel answers,
    the trampoline never returns to its caller, sets the flag, and calls the
    start function stored in the record exactly once, with the argument
    stored there. *)
Theorem __thrd_entry_never_returns w info :
  let r := run K (__thrd_entry info) w in
  fst r = Stopped /\
  start_calls (performed w (snd r)) =
    [mkcall (call_start (funs w (Fld f_func info)) (ptrs w (Fld f_arg info)))] /\
  ints (snd r) (Fld f_thread_started info) = 1.
Proof.
  unfold __thrd_entry, thrd_exit, thrd_current, mtx_lock, mtx_unlock,
    cnd_signal. simpl.
  rewrite ?upd_other by discriminate.
  set (ty := ints w (Fld f_type (Fld f_mutex info))).
  repeat (simpl; rewrite ?upd_other by discriminate; fold ty;
          lazymatch goal with
          | |- context [if ?b then _ else _] => destruct b
          | |- context [match ptrs ?w0 ?a with Some _ => _ | None => _ end] =>
              destruct (ptrs w0 a)
          end);
    (split; [reflexivity|]);
    (split; [performed_list; reflexivity|]);
    simpl; rewrite ?upd_other by discriminate; apply upd_same.
Qed.

End Lifecycle.

(** ** The once-guard calls once *)

(** Whether an entry of the history is a call of a protected function. *)
Definition is_call_void (c : nat * call) : bool :=
  match projT2 (snd c) with
  | call_void _ => true
  | _ => false
  end.

(** How many times the history calls a protected function. *)
Definition times_called (h : list (nat * call)) : nat :=
  length (filter (fun c => is_call_void c = true) h).

Lemma times_called_app h1 h2 :
  times_called (h1 ++ h2) = (times_called h1 + times_called h2)%nat.
Proof. unfold times_called. now rewrite filter_app, length_app. Qed.

Lemma times_called_snoc h t {X} (e : event X) :
  times_called (h ++ [(t, mkcall e)]) =
  (times_called h + if is_call_void (t, mkcall e) then 1 else 0)%nat.
Proof. rewrite times_called_app. unfold times_called. simpl. now destruct e. Qed.

Section ExactlyOnce.
Context {H : ThreadsH}.
Variable flag : addr.

(** What a thread inside [call_once] knows, beyond [once_view]: whether it
    has called the protected function, whether it has seen a status other
    than 0, and whether it has seen or stored status 2. *)
Record once_track := OnceTrack {
  t_held : bool;
  t_runner : bool;
  t_saw0 : bool;
  t_called : bool;
  t_nonzero : bool;
  t_done : bool
}.

Definition track_allowed (v : once_track) {X} (e : event X) : Prop :=
  match e with
  | Load a => a = flag_type flag \/ a = flag_status flag
  | Store a x =>
      a = flag_status flag /\ t_held v = true /\
      ((x = 1 /\ t_saw0 v = true /\ t_runner v = false /\
        t_called v = false) \/
       (x = 2 /\ t_runner v = true /\ t_called v = true))
  | mutexLock m => m = flag_mutex flag /\ t_held v = false
  | mutexUnlock m => m = flag_mutex flag /\ t_held v = true
  | call_void _ => t_held v = false /\ t_runner v = true /\ t_called v = false
  | condvarWakeAll _ => t_held v = true
  | condvarWaitTimeout _ m _ => m = flag_mutex flag /\ t_held v = true
  | null_deref => t_held v = false
  | _ => False
  end.

(** The tag of the guard's mutex reads as [mtx_plain]; the status reads as
    0, 1 or 2, and not as 0 once the thread has seen it otherwise; an
    access through [NULL] does not return. *)
Definition track_answers (v : once_track) {X} (e : event X) : X -> Prop :=
  match e in event X return X -> Prop with
  | Load a => fun x =>
      (a = flag_type flag -> x = mtx_plain) /\
      (a = flag_status flag ->
         (x = 0 \/ x = 1 \/ x = 2) /\ (t_nonzero v = true -> x <> 0))
  | null_deref => fun _ => False
  | _ => fun _ => True
  end.

(** The view of a thread that has just taken the mutex. *)
Definition relocked (v : once_track) : once_track :=
  OnceTrack true (t_runner v) false (t_called v) (t_nonzero v) (t_done v).

Definition track_next (v : once_track) {X} (e : event X) : X -> once_track :=
  match e in event X return X -> once_track with
  | Load a => fun x =>
      if decide (a = flag_status flag)
      then OnceTrack (t_held v) (t_runner v) (t_held v && (x =? 0))
             (t_called v) (t_nonzero v || negb (x =? 0)) (t_done v || (x =? 2))
      else v
  | Store _ x => fun _ =>
      OnceTrack (t_held v) (x =? 1) false (t_called v) true (x =? 2)
  | mutexLock _ => fun _ => relocked v
  | condvarWaitTimeout _ _ _ => fun _ => relocked v
  | mutexUnlock _ => fun _ =>
      OnceTrack false (t_runner v) false (t_called v) (t_nonzero v) (t_done v)
  | call_void _ => fun _ =>
      OnceTrack (t_held v) (t_runner v) (t_saw0 v) true (t_nonzero v) (t_done v)
  | _ => fun _ => v
  end.

Definition track_protocol : protocol once_track :=
  Protocol once_track (@track_allowed) (@track_answers) (@track_next).

(** A call of [call_once] returns with the mutex released, not as the
    runner, and knowing that the status is 2. *)
Definition track_final (v : once_track) (_ : unit) : Prop :=
  t_held v = false /\ t_runner v = false /\ t_done v = true.

(** One call under [follows]: the side condition, then the answer. *)
Ltac track_call :=
  simpl;
  lazymatch goal with
  | |- _ /\ (forall x, _) =>
      split;
      [ unfold flag_type, flag_status, flag_mutex; intuition (auto; discriminate)
      | let x := fresh "x" in
        let Hx := fresh "Hx" in
        intros x Hx; simpl in Hx;
        try (rewrite (proj1 Hx eq_refl), ?Z.eqb_refl; clear Hx);
        try rewrite decide_True by reflexivity;
        simpl ]
  end.

Lemma track_unlock_tail v :
  t_held v = true -> t_runner v = false -> t_done v = true ->
  follows track_protocol track_final v
    (mtx_unlock (Some (Fld f_mutex flag)) ;; Ret tt).
Proof.
  destruct v as [h r z c n d]. simpl. intros -> -> ->.
  do 2 track_call. now repeat split.
Qed.

Lemma call_once_tracks fuel func :
  follows track_protocol track_final
    (OnceTrack false false false false false false)
    (call_once fuel flag func).
Proof.
  unfold call_once. do 3 track_call.
  destruct Hx0 as [_ Hx0]. destruct (Hx0 eq_refl) as [Hrange _]. clear Hx0.
  destruct (Z.eqb_spec x2 0) as [->|Hne]; simpl.
  - do 3 track_call. destruct func as [f|].
    + do 7 track_call. now repeat split.
    + simpl. split; [reflexivity|]. intros x [].
  - eapply (follows_bind _
      (fun v _ => t_held v = true /\ t_runner v = false /\ t_done v = true)).
    + apply (follows_while _
        (fun v => t_held v = true /\ t_runner v = false /\ t_nonzero v = true));
        [|now repeat split].
      intros [h r z c n d] (Hh & Hr & Hn). simpl in Hh, Hr, Hn. subst h r n.
      track_call.
      destruct Hx0 as [_ Hx0]. destruct (Hx0 eq_refl) as [Hr3 Hnz].
      specialize (Hnz eq_refl).
      destruct (Z.eqb_spec x3 1) as [->|Hne1]; simpl.
      * do 2 track_call. now repeat split.
      * assert (x3 = 2) as -> by lia. simpl. rewrite orb_true_r. now repeat split.
    + intros v [] (Hh & Hr & Hd). now apply track_unlock_tail.
Qed.

(** What view [v] of thread [t] says about the shared state and the
    history: the runner has called the protected function once or not yet,
    and nobody else has. *)
Definition track_local (s : kstate) (h : list (nat * call)) (t : nat)
    (v : once_track) : Prop :=
  (t_held v = true <-> owner s (flag_mutex flag) = Some t) /\
  (t_runner v = true ->
     kints s (flag_status flag) = 1 /\
     times_called h = if t_called v then 1%nat else 0%nat) /\
  (t_saw0 v = true -> t_held v = true /\ kints s (flag_status flag) = 0) /\
  (t_nonzero v = true -> kints s (flag_status flag) <> 0) /\
  (t_done v = true -> kints s (flag_status flag) = 2).

(** What holds of the shared state and the history whoever runs: the status
    is 0, 1 or 2; no call has been made while it is 0, and exactly one once
    it is 2. *)
Definition track_shared (s : kstate) (h : list (nat * call)) : Prop :=
  kints s (flag_type flag) = mtx_plain /\
  (kints s (flag_status flag) = 0 \/ kints s (flag_status flag) = 1 \/
   kints s (flag_status flag) = 2) /\
  (kints s (flag_status flag) = 0 -> times_called h = 0%nat) /\
  (kints s (flag_status flag) = 2 -> times_called h = 1%nat) /\
  (times_called h <= 1)%nat.

Definition track_thread (v : once_track) (th : tstate unit) : Prop :=
  match th with
  | Running p => follows track_protocol track_final v p
  | Waiting _ m k =>
      m = flag_mutex flag /\ t_held v = false /\
      forall rc, follows track_protocol track_final (relocked v) (k rc)
  | Exited => False
  end.

Definition one_runner (v1 v2 : once_track) : Prop :=
  t_runner v1 = true -> t_runner v2 = true -> False.

Lemma kints_status_type s v :
  kints (set_kints s (flag_status flag) v) (flag_type flag) =
  kints s (flag_type flag).
Proof. reflexivity. Qed.

Ltac track_unfold :=
  unfold track_local, track_shared, one_runner, relocked in *;
  cbn [t_held t_runner t_saw0 t_called t_nonzero t_done labelled] in *;
  rewrite ?app_nil_r, ?times_called_snoc in *;
  cbn [is_call_void projT2 snd mkcall] in *;
  rewrite ?Nat.add_0_r in *;
  rewrite ?kints_status_type, ?owner_set_owner, ?kints_set_owner,
    ?kints_set_kints, ?owner_set_kints in *.
Ltac track_solve := intuition (try congruence; try discriminate; try lia).

Lemma track_step_local t s h th s' th' new lab v :
  track_shared s h ->
  track_thread v th ->
  track_local s h t v ->
  tstep t s th s' th' new lab ->
  exists v',
    new = [] /\
    track_shared s' (h ++ labelled t lab) /\
    track_thread v' th' /\
    track_local s' (h ++ labelled t lab) t v' /\
    forall u vu, u <> t -> track_local s h u vu -> one_runner v vu ->
      track_local s' (h ++ labelled t lab) u vu /\ one_runner v' vu.
Proof.
  intros Hsh Hth Hloc Hstep.
  destruct v as [hd r z c n d].
  destruct th as [p | cv m k |]; simpl in Hstep; [|  | contradiction].
  - destruct p as [ret | X e k |]; try contradiction.
    destruct Hstep as [-> Hstep]. simpl in Hth. destruct Hth as [Hal Hk].
    destruct e; simpl in Hal; try contradiction; simpl in Hstep.
    + (* Load *)
      destruct Hstep as (-> & x & (-> & ->) & ->).
      exists (track_next (OnceTrack hd r z c n d) (Load a) (kints s a)).
      assert (Hans : track_answers (OnceTrack hd r z c n d) (Load a) (kints s a)).
      { simpl. track_unfold. split; intros ->; track_solve. }
      split; [reflexivity|].
      split; [track_unfold; track_solve|].
      split; [apply Hk, Hans|].
      simpl. destruct (decide (a = flag_status flag)) as [->|Hne]; simpl.
      * split; [|intros u vu Hu Hlu Hone; track_unfold; track_solve].
        track_unfold.
        destruct (Z.eqb_spec (kints s (flag_status flag)) 0),
          (Z.eqb_spec (kints s (flag_status flag)) 2), hd, n, d;
          simpl; track_solve.
      * split; [|intros u vu Hu Hlu Hone]; track_unfold; track_solve.
    + (* Store *)
      destruct Hal as (-> & -> & Hcase).
      destruct Hstep as (-> & [] & -> & ->).
      exists (OnceTrack true (v =? 1) false c true (v =? 2)).
      split; [reflexivity|].
      split; [|split; [apply Hk; exact I|]].
      * track_unfold. destruct Hcase as [(-> & -> & -> & ->) | (-> & -> & ->)];
          track_solve.
      * split; [|intros u [hu ru zu cu nu du] Hu Hlu Hone]; track_unfold;
          destruct Hcase as [(-> & -> & -> & ->) | (-> & -> & ->)]; simpl;
          track_solve.
    + (* mutexLock *)
      destruct Hal as (-> & ->).
      destruct Hstep as (-> & [] & (Hfree & ->) & ->).
      exists (OnceTrack true r false c n d).
      split; [reflexivity|].
      split; [track_unfold; track_solve|].
      split; [apply Hk; exact I|].
      split; [|intros u [hu ru zu cu nu du] Hu Hlu Hone]; track_unfold;
        track_solve.
    + (* mutexUnlock *)
      destruct Hal as (-> & ->).
      destruct Hstep as (-> & [] & -> & ->).
      assert (Hown : owner s (flag_mutex flag) = Some t) by now apply Hloc.
      rewrite (release_held _ _ _ Hown).
      exists (OnceTrack false r false c n d).
      split; [reflexivity|].
      split; [track_unfold; track_solve|].
      split; [apply Hk; exact I|].
      split; [|intros u [hu ru zu cu nu du] Hu Hlu Hone]; track_unfold;
        track_solve.
    + (* condvarWakeAll *)
      destruct Hstep as (-> & x & -> & ->).
      exists (OnceTrack hd r z c n d).
      split; [reflexivity|].
      split; [track_unfold; track_solve|].
      split; [apply Hk; exact I|].
      split; [|intros u [hu ru zu cu nu du] Hu Hlu Hone]; track_unfold;
        track_solve.
    + (* condvarWaitTimeout *)
      destruct Hal as (-> & ->).
      assert (Hown : owner s (flag_mutex flag) = Some t) by now apply Hloc.
      destruct Hstep as (-> & [(-> & ->) | (rc & _ & -> & ->)]).
      * rewrite (release_held _ _ _ Hown).
        exists (OnceTrack false r false c n d).
        split; [reflexivity|].
        split; [track_unfold; track_solve|].
        split; [simpl; repeat split; intros rc; apply Hk; exact I|].
        split; [|intros u [hu ru zu cu nu du] Hu Hlu Hone]; track_unfold;
          track_solve.
      * exists (OnceTrack true r false c n d).
        split; [reflexivity|].
        split; [track_unfold; track_solve|].
        split; [apply Hk; exact I|].
        split; [|intros u [hu ru zu cu nu du] Hu Hlu Hone]; track_unfold;
          track_solve.
    + (* call_void *)
      destruct Hal as (-> & -> & ->).
      destruct Hstep as (-> & x & -> & ->).
      exists (OnceTrack false true z true n d).
      split; [reflexivity|].
      split; [track_unfold; track_solve|].
      split; [apply Hk; exact I|].
      split; [|intros u [hu ru zu cu nu du] Hu Hlu Hone]; track_unfold;
        track_solve.
  - (* a suspended waiter resumes *)
    destruct Hth as (-> & Hheld & Hk). simpl in Hheld. subst hd.
    destruct Hstep as (-> & -> & Hfree & -> & rc & ->).
    exists (OnceTrack true r false c n d).
    split; [reflexivity|].
    split; [track_unfold; track_solve|].
    split; [apply Hk|].
    split; [|intros u [hu ru zu cu nu du] Hu Hlu Hone]; track_unfold;
      track_solve.
Qed.

(** The invariant of a system whose threads all run [call_once] on [flag],
    started with status 0 and no call made. *)
Definition track_inv (y : sys) (views : list once_track) : Prop :=
  track_shared (ks y) (hist y) /\
  length views = length (pool y) /\
  (forall t v, views !! t = Some v ->
     exists th, pool y !! t = Some (VoidCall th) /\
                track_thread v th /\ track_local (ks y) (hist y) t v) /\
  (forall t1 t2 v1 v2, t1 <> t2 ->
     views !! t1 = Some v1 -> views !! t2 = Some v2 -> one_runner v1 v2).

Lemma track_inv_step y y' views :
  track_inv y views -> step y y' -> exists views', track_inv y' views'.
Proof.
  intros (Hsh & Hlen & Hthreads & Huniq) Hstep.
  destruct Hstep as [t a a' s' new lab y Hpool Htask].
  assert (Hlt : (t < length views)%nat).
  { rewrite Hlen. eapply lookup_lt_Some; eassumption. }
  destruct (lookup_lt_is_Some_2 _ _ Hlt) as [v Hv].
  destruct (Hthreads t v Hv) as (th & Hth & Hfollows & Hloc).
  rewrite Hth in Hpool. injection Hpool as <-.
  destruct Htask as (th' & -> & Htstep).
  destruct (track_step_local _ _ _ _ _ _ _ _ _ Hsh Hfollows Hloc Htstep)
    as (v' & -> & Hsh' & Hfollows' & Hloc' & Hothers).
  exists (<[t := v']> views).
  unfold track_inv. cbn [pool ks hist]. rewrite app_nil_r.
  split; [exact Hsh'|]. split.
  { rewrite !length_insert. exact Hlen. }
  split.
  - intros u vu Hu. destruct (decide (u = t)) as [->|Hne].
    + rewrite list_lookup_insert_eq in Hu by assumption.
      injection Hu as <-. exists th'. split; [|now split].
      apply list_lookup_insert_eq. now rewrite <- Hlen.
    + rewrite list_lookup_insert_ne in Hu by congruence.
      destruct (Hthreads u vu Hu) as (thu & Hthu & Hfu & Hlu).
      exists thu. split; [now rewrite list_lookup_insert_ne by congruence|].
      split; [exact Hfu|].
      assert (Hone : one_runner v vu).
      { apply (Huniq t u v vu); [congruence | assumption | assumption]. }
      exact (proj1 (Hothers u vu Hne Hlu Hone)).
  - intros t1 t2 v1 v2 Hne H1 H2.
    destruct (decide (t1 = t)) as [->|Hne1].
    + rewrite list_lookup_insert_eq in H1 by assumption. injection H1 as <-.
      rewrite list_lookup_insert_ne in H2 by congruence.
      destruct (Hthreads t2 v2 H2) as (_ & _ & _ & Hl2).
      assert (Hone : one_runner v v2).
      { apply (Huniq t t2 v v2); [congruence | assumption | assumption]. }
      exact (proj2 (Hothers t2 v2 ltac:(congruence) Hl2 Hone)).
    + rewrite list_lookup_insert_ne in H1 by congruence.
      destruct (decide (t2 = t)) as [->|Hne2].
      * rewrite list_lookup_insert_eq in H2 by assumption. injection H2 as <-.
        destruct (Hthreads t1 v1 H1) as (_ & _ & _ & Hl1).
        assert (Hone : one_runner v v1).
        { apply (Huniq t t1 v v1); [congruence | assumption | assumption]. }
        intros Hr1 Hr2.
        exact (proj2 (Hothers t1 v1 Hne1 Hl1 Hone) Hr2 Hr1).
      * rewrite list_lookup_insert_ne in H2 by congruence. eauto.
Qed.

Lemma track_inv_init y0 racers :
  once_init flag y0 racers ->
  kints (ks y0) (flag_status flag) = 0 ->
  times_called (hist y0) = 0%nat ->
  track_inv y0
    ((fun _ => OnceTrack false false false false false false) <$> racers).
Proof.
  intros (Hpool & Hown & Hty) Hst Hh. unfold track_inv. rewrite Hpool.
  split; [track_unfold; track_solve|].
  split; [unfold once_racers; now rewrite !length_fmap|].
  split.
  - intros t v Hv. rewrite list_lookup_fmap in Hv.
    destruct (racers !! t) as [[fuel func]|] eqn:E; [|discriminate].
    injection Hv as <-.
    exists (Running (call_once fuel flag func)). split; [|split].
    + unfold once_racers. rewrite list_lookup_fmap, E. reflexivity.
    + apply call_once_tracks.
    + track_unfold. rewrite Hown. track_solve.
  - intros t1 t2 v1 v2 _ H1 _. rewrite list_lookup_fmap in H1.
    destruct (racers !! t1); [|discriminate]. injection H1 as <-.
    intros Hr. discriminate Hr.
Qed.

Lemma track_inv_reachable y0 y views0 :
  track_inv y0 views0 -> reachable y0 y -> exists views, track_inv y views.
Proof.
  intros Hinv Hreach. revert y Hreach. apply rtc_ind_r; [eauto|].
  intros y1 y2 _ Hstep [views Hv].
  destruct (track_inv_step _ _ _ Hv Hstep) as (views' & Hv'). eauto.
Qed.

(** Threads racing through [call_once] on one flag whose status starts at
    0 call a protected function at most once between them, whatever the
    interleaving; a thread about to make that call is the first, and the
    status is 1 then; and once any of the calls of [call_once] has
    returned, the status is 2 and the one call has been made.  The
    protected function is taken not to touch the flag. *)
Theorem call_once_calls_exactly_once racers y0 y :
  once_init flag y0 racers ->
  kints (ks y0) (flag_status flag) = 0 ->
  times_called (hist y0) = 0%nat ->
  reachable y0 y ->
  (times_called (hist y) <= 1)%nat /\
  (forall t f k,
     pool y !! t = Some (VoidCall (Running (Vis (call_void f) k))) ->
     times_called (hist y) = 0%nat /\ kints (ks y) (flag_status flag) = 1) /\
  (forall t,
     pool y !! t = Some (VoidCall (Running (Ret tt))) ->
     times_called (hist y) = 1%nat /\ kints (ks y) (flag_status flag) = 2).
Proof.
  intros Hinit Hst Hh Hreach.
  destruct (track_inv_reachable _ _ _ (track_inv_init _ _ Hinit Hst Hh) Hreach)
    as [views (Hsh & Hlen & Hthreads & _)].
  assert (Hview : forall t th, pool y !! t = Some (VoidCall th) ->
            exists v, track_thread v th /\ track_local (ks y) (hist y) t v).
  { intros t th Hth.
    assert (Hlt : (t < length views)%nat).
    { rewrite Hlen. eapply lookup_lt_Some; eassumption. }
    destruct (lookup_lt_is_Some_2 _ _ Hlt) as [v Hv].
    destruct (Hthreads t v Hv) as (th0 & Hth0 & Hf & Hl).
    rewrite Hth in Hth0. injection Hth0 as <-. eauto. }
  split; [apply Hsh|]. split.
  - intros t f k Hth.
    destruct (Hview _ _ Hth) as ([h r z c n d] & [Hal _] & Hloc).
    simpl in Hal. destruct Hal as (-> & -> & ->).
    track_unfold. track_solve.
  - intros t Hth.
    destruct (Hview _ _ Hth) as ([h r z c n d] & Hfin & Hloc).
    simpl in Hfin. unfold track_final in Hfin. simpl in Hfin.
    destruct Hfin as (-> & -> & ->).
    track_unfold. track_solve.
Qed.

End ExactlyOnce.

(** The race of [two_racers] run to its end: both calls of [call_once] have
    returned, and the theorem counts one call of a protected function. *)
Lemma call_once_calls_exactly_once_witness :
  exists y,
    @reachable newlib_threads_h two_racers y /\
    pool y !! 1%nat = Some (VoidCall (Running (Ret tt))) /\
    times_called (hist y) = 1%nat /\
    kints (ks y) (flag_status (Obj 0)) = 2.
Proof.
  assert (Hreach : exists y,
    @reachable newlib_threads_h two_racers y /\
    pool y !! 1%nat = Some (VoidCall (Running (Ret tt)))).
  { eexists. split.
    - unfold reachable, two_racers.
      do 6 thread_steps 0%nat.
      do 5 thread_steps 1%nat. thread_waits 1%nat.
      do 7 thread_steps 0%nat.
      do 4 thread_steps 1%nat.
      apply rtc_refl.
    - reflexivity. }
  destruct Hreach as (y & Hreach & Hpool).
  exists y. split; [exact Hreach|]. split; [exact Hpool|].
  exact (proj2 (proj2 (@call_once_calls_exactly_once newlib_threads_h (Obj 0)
    _ two_racers y two_racers_init eq_refl eq_refl Hreach)) 1%nat Hpool).
Defined.

(** *** Concrete runs of the sequential properties *)

(** A world in which every tag is newlib's [mtx_plain], every pointer cell
    names [Obj 9] and every function cell the user's function 0. *)
Definition world_of_thread : world :=
  World (fun _ => 1) (fun _ => Some (Obj 9)) (fun _ => Some (fn_user 0)) [].

(** A recursive mutex through its lifecycle. *)
Lemma mutex_lifecycle_uses_one_primitive_witness :
  let r := run kernel_ok
             (@mtx_init newlib_threads_h (Some (Obj 1)) 2 ;;
              @mtx_lock newlib_threads_h (Some (Obj 1)) ;;
              @mtx_trylock newlib_threads_h (Some (Obj 1)) ;;
              @mtx_unlock newlib_threads_h (Some (Obj 1))) (blank 0) in
  calls (performed (blank 0) (snd r)) =
    [mkcall (rmutexInit (Fld f_rmutex (Obj 1)));
     mkcall (rmutexLock (Fld f_rmutex (Obj 1)));
     mkcall (rmutexTryLock (Fld f_rmutex (Obj 1)));
     mkcall (rmutexUnlock (Fld f_rmutex (Obj 1)))] /\
  fst r = Returned 4 /\
  ints (snd r) (Fld f_type (Obj 1)) = 2.
Proof.
  exact (@mutex_lifecycle_uses_one_primitive newlib_threads_h kernel_ok
           (blank 0) (Obj 1) 2 (or_intror eq_refl)).
Defined.

(** Two calls of [call_once] in sequence on the flag [Obj 0]: the first
    function runs, the second does not. *)
Lemma call_once_in_sequence_witness :
  let w := with_int (Fld f_type (Fld f_mutex (Obj 0))) 1 (blank 0) in
  let r := run kernel_ok
             (@call_once newlib_threads_h 1 (Obj 0) (Some (fn_user 0)) ;;
              @call_once newlib_threads_h 2 (Obj 0) (Some (fn_user 1))) w in
  fst r = Returned tt /\
  calls (performed w (snd r)) =
    once_runs (Obj 0) (Some (fn_user 0)) ++ once_skips (Obj 0) /\
  ints (snd r) (Fld f_status (Obj 0)) = 2.
Proof.
  exact (proj1 (proj2 (proj2 (@call_once_in_sequence newlib_threads_h
           kernel_ok (with_int (Fld f_type (Fld f_mutex (Obj 0))) 1 (blank 0))
           1 1 (Obj 0) (fn_user 0) (Some (fn_user 1)) eq_refl)))
         eq_refl).
Defined.

(** The trampoline on the record [Obj 1], for the thread [Obj 9]. *)
Lemma __thrd_entry_runs_start_function_witness :
  let r := run kernel_ok (@__thrd_entry newlib_threads_h (Obj 1))
             world_of_thread in
  fst r = Stopped /\
  ints (snd r) (Fld f_thread_started (Obj 1)) = 1 /\
  ints (snd r) (Fld f_rc (Obj 9)) = 0.
Proof.
  destruct (@__thrd_entry_runs_start_function newlib_threads_h kernel_ok
              world_of_thread (Obj 1) (Obj 0) 0 (Obj 9) (fn_user 0) eq_refl
              eq_refl (fun _ => eq_refl) (fun _ _ _ => eq_refl) eq_refl)
    as (Hr & _ & Hs & Hrc).
  split; [exact Hr|]. split; [exact Hs | exact Hrc].
Defined.

(** On a kernel where every call succeeds, a creator alone waits without
    returning: two iterations of the loop are two kernel waits. *)
Lemma thrd_create_outcomes_witness :
  let r := run kernel_ok
             (@thrd_create newlib_threads_h 2 (Obj 1) (Some (Obj 5))
                (Some (fn_user 0)) None) (blank 0) in
  fst r = Spinning /\
  ptrs (snd r) (Obj 5) = None /\
  funs (snd r) (Fld f_func (Obj 1)) = Some (fn_user 0).
Proof.
  destruct (proj2 (proj2 (proj2
             (@thrd_create_outcomes newlib_threads_h kernel_ok 1 0 0 0 (Obj 7)
                (fun _ _ _ _ => eq_refl) (fun _ _ => eq_refl)
                (fun _ _ _ _ _ _ _ => eq_refl) (fun _ _ _ _ => eq_refl)
                (fun _ _ => eq_refl)
                (blank 0) 2 (Obj 1) (Obj 5) (fn_user 0) None
                ltac:(discriminate))))
             eq_refl eq_refl eq_refl)
    as (Hr & _ & Hthr & Hf & _).
  split; [exact Hr|]. split; [exact Hthr | exact Hf].
Defined.

(** On a kernel where [svcGetInfo] fails, [thrd_create] returns 2,
    [thrd_error], after that one call. *)
Lemma thrd_create_early_failures_witness :
  let r := run kernel_failing
             (@thrd_create newlib_threads_h 2 (Obj 1) (Some (Obj 5))
                (Some (fn_user 0)) None) (blank 0) in
  fst r = Returned 2 /\
  calls (performed (blank 0) (snd r)) =
    [mkcall (svcGetInfo 0 CUR_PROCESS_HANDLE 0)].
Proof.
  destruct (proj1 (proj2 (proj2
             (@thrd_create_early_failures newlib_threads_h kernel_failing
                (blank 0) 2 (Obj 1) (Obj 5) (fn_user 0) None
                KERNELRESULT_InvalidHandle 1 (fun _ _ _ _ => eq_refl))))
             ltac:(discriminate))
    as (Hr & Hc & _).
  split; [exact Hr | exact Hc].
Defined.

(** The thread [Obj 9] exits with code 42 and is joined: 42 arrives in
    [Obj 3] and the join returns 4, [thrd_success]. *)
Lemma exit_code_reaches_join_witness :
  let w1 := snd (run kernel_ok (thrd_exit 42) world_of_thread) in
  let r := run kernel_ok
             (@thrd_join newlib_threads_h (Obj 9) (Some (Obj 3))) w1 in
  ints (snd r) (Obj 3) = 42 /\ fst r = Returned 4.
Proof.
  destruct (@exit_code_reaches_join newlib_threads_h kernel_ok
              world_of_thread 42 (Obj 9) (Obj 0) (Obj 3) 0 eq_refl
              (fun _ _ => eq_refl) (fun _ _ => eq_refl) eq_refl)
    as (Hres & _ & Hr).
  split; [exact Hres | exact Hr].
Defined.

(** The thread [Obj 9] is equal to itself. *)
Lemma thrd_current_equals_itself_witness :
  fst (run kernel_ok
         (a <- thrd_current ;; b <- thrd_current ;; thrd_equal a b)
         world_of_thread) = Returned 1.
Proof.
  exact (proj1 (thrd_current_equals_itself kernel_ok world_of_thread (Obj 0)
                  (fun _ => eq_refl))).
Defined.
